(** * The interview pipeline of [main.py]

    A shallow embedding of the four stages ([analyze_jd], [generate_question],
    [evaluate_answer], [generate_final_decision]) and of the orchestrator
    [run_interview], followed by the properties of the pipeline.

    The language model, the prompt templates, the output parsers and the
    console are external collaborators: they are a type class whose methods
    answer each call from a world state, so that a model may answer
    differently from one call to the next.  Every call is logged together
    with the session as it stands when the call is made. *)

From Stdlib Require Import ZArith.
From stdpp Require Import base list strings pretty gmap.

Open Scope string_scope.
Open Scope list_scope.
Set Warnings "-register-all".

(** ** Python values *)

(** What the JSON decoder can hand back, and what the session stores.
    [JNull] is Python's [None]; a float is kept as mantissa and exponent and is
    never inspected; a dictionary is its items in insertion order. *)
Inductive json : Type :=
  | JNull
  | JBool (b : bool)
  | JInt (z : Z)
  | JFloat (m e : Z)
  | JStr (s : string)
  | JList (l : list json)
  | JDict (d : list (string * json)).

(** The exceptions a stage can let escape. *)
Inductive exn : Type :=
  | KeyError (k : string)
  | TypeError
  | AttributeError
  | OutputParserException
  | ExternalError (msg : string).

Inductive outcome (A : Type) : Type :=
  | Ok (a : A)
  | Raise (e : exn).
Arguments Ok {A} a.
Arguments Raise {A} e.

Definition obind {A B} (o : outcome A) (k : A -> outcome B) : outcome B :=
  match o with
  | Ok a => k a
  | Raise e => Raise e
  end.

Notation "'let?' x ':=' o 'in' k" := (obind o (fun x => k))
  (at level 10, x name, o at level 100, k at level 200, only parsing).

(** The line feed written [\n] in the source. *)
Definition LF : string := String (Ascii.ascii_of_nat 10) "".

(** The value of key [k]; the decoder gives every key once. *)
Fixpoint lookup_key (k : string) (d : list (string * json)) : option json :=
  match d with
  | [] => None
  | (k', v) :: rest => if String.eqb k' k then Some v else lookup_key k rest
  end.

(** [v[k]] for a string key [k]: a missing key is a [KeyError], and a value
    that is not a dictionary cannot be indexed by a string. *)
Definition subscript (v : json) (k : string) : outcome json :=
  match v with
  | JDict d =>
      match lookup_key k d with
      | Some x => Ok x
      | None => Raise (KeyError k)
      end
  | _ => Raise TypeError
  end.

(** [v.get(k, dflt)]: only a dictionary has the method. *)
Definition dict_get (v : json) (k : string) (dflt : json) : outcome json :=
  match v with
  | JDict d => Ok (default dflt (lookup_key k d))
  | _ => Raise AttributeError
  end.

(** A Python text is kept as its UTF-8 encoding, and Python iterates and
    slices a text by code points, not by bytes.  In UTF-8 the bytes [10xxxxxx]
    continue a code point and every other byte begins one. *)
Definition continuation (a : Ascii.ascii) : bool :=
  match a with
  | Ascii.Ascii _ _ _ _ _ _ b6 b7 => b7 && negb b6
  end.

(** Does [s] begin in the middle of a code point? *)
Definition starts_inside (s : string) : bool :=
  match s with
  | "" => false
  | String a _ => continuation a
  end.

(** One character: a byte, and after it continuation bytes only. *)
Definition single_char (c : string) : bool :=
  match c with
  | "" => false
  | String _ tail => forallb continuation (String.list_ascii_of_string tail)
  end.

(** The one-character strings of a text: one per code point, each made of
    the byte that begins the code point and of the continuation bytes that
    follow it. *)
Fixpoint chars (s : string) : list string :=
  match s with
  | "" => []
  | String a rest =>
      match chars rest with
      | [] => [String a ""]
      | c :: cs => if starts_inside rest then String a c :: cs
                   else String a "" :: c :: cs
      end
  end.

(** [for x in v]: the elements of a list, the characters of a string, the
    keys of a dictionary. *)
Definition py_iter (v : json) : outcome (list json) :=
  match v with
  | JList l => Ok l
  | JStr s => Ok (JStr <$> chars s)
  | JDict d => Ok ((JStr ∘ fst) <$> d)
  | _ => Raise TypeError
  end.

(** [v[:n]]: the first [n] items of a list, the first [n] characters of a
    text; a dictionary cannot take a slice as a key and the other values
    cannot be indexed at all. *)
Definition slice_to (n : nat) (v : json) : outcome json :=
  match v with
  | JList l => Ok (JList (take n l))
  | JStr s => Ok (JStr (String.concat "" (take n (chars s))))
  | _ => Raise TypeError
  end.

Fixpoint all_str (l : list json) : outcome (list string) :=
  match l with
  | [] => Ok []
  | JStr s :: rest => let? ss := all_str rest in Ok (s :: ss)
  | _ :: _ => Raise TypeError
  end.

(** [sep.join(v)]: every item of the iterable must be a string. *)
Definition str_join (sep : string) (v : json) : outcome string :=
  let? items := py_iter v in
  let? ss := all_str items in
  Ok (String.concat sep ss).

(** ** The session *)

Record InterviewState : Type := {
  candidate_name : string;
  job_description : string;
  analyzed_requirements : json;
  generated_questions : list string;
  evaluations : list json;
  final_recommendation : option string
}.

(** [InterviewState(candidate_name=..., job_description=...)] with the
    defaults of the other four fields. *)
Definition new_InterviewState (name jd : string) : InterviewState :=
  {| candidate_name := name;
     job_description := jd;
     analyzed_requirements := JDict [];
     generated_questions := [];
     evaluations := [];
     final_recommendation := None |}.

(** The schema [JobAnalysis]: four fields, two texts and two lists of texts. *)
Definition is_str (v : json) : bool :=
  match v with JStr _ => true | _ => false end.

Definition is_str_list (v : json) : bool :=
  match v with JList l => forallb is_str l | _ => false end.

Definition has_field (p : json -> bool) (k : string) (v : json) : bool :=
  match v with
  | JDict d => match lookup_key k d with Some x => p x | None => false end
  | _ => false
  end.

Definition JobAnalysis (v : json) : bool :=
  has_field is_str "role_title" v
  && has_field is_str_list "technical_skills" v
  && has_field is_str_list "soft_skills" v
  && has_field is_str "seniority_level" v.

(** ** The arguments of the four chains *)

Record QInput : Type := {
  q_role : json;
  q_tech_skills : string;
  q_seniority : json;
  q_previous_questions : string;
  q_focus_area : json
}.

Record EvalInput : Type := {
  ev_question : string;
  ev_answer : string;
  ev_skills : json
}.

Record RecInput : Type := {
  rec_name : string;
  rec_role : json;
  rec_evaluations : string
}.

(** One call to a collaborator, with what it answered. *)
Inductive event : Type :=
  | JdCall (jd : string) (r : outcome json)
  | QCall (i : QInput) (r : outcome string)
  | InputCall (prompt : string) (r : outcome string)
  | EvalCall (i : EvalInput) (r : outcome json)
  | RecCall (i : RecInput) (r : outcome string).

(** ** The collaborators

    [jd_agent], [q_agent], [eval_agent] and [rec_agent] are the [invoke] of
    the four chains (prompt, model, parser); the formatting instructions, a
    constant of the parser, are part of the chain.  [input] is the console
    read, and [repr] the built-in text of a float, a list or a dictionary. *)
Class Collaborators (W : Type) : Type := {
  jd_agent : string -> W -> outcome json * W;
  q_agent : QInput -> W -> outcome string * W;
  eval_agent : EvalInput -> W -> outcome json * W;
  rec_agent : RecInput -> W -> outcome string * W;
  input : string -> W -> outcome string * W;
  repr : json -> string
}.

(** ** The machine

    One session object lives in the heap of a run; the stages mutate it in
    place, and a mutation made before an exception stays made. *)

Record machine (W : Type) : Type := {
  world : W;
  session : InterviewState;
  trace : list (InterviewState * event)
}.
Arguments world {W} m.
Arguments session {W} m.
Arguments trace {W} m.

Definition M (W A : Type) : Type := machine W -> outcome A * machine W.

Definition ret {W A} (a : A) : M W A := fun m => (Ok a, m).

Definition bind {W A B} (c : M W A) (k : A -> M W B) : M W B :=
  fun m =>
    match c m with
    | (Ok a, m') => k a m'
    | (Raise e, m') => (Raise e, m')
    end.

Definition lift {W A} (o : outcome A) : M W A := fun m => (o, m).

Definition get_state {W} : M W InterviewState := fun m => (Ok (session m), m).

Definition modify {W} (f : InterviewState -> InterviewState) : M W unit :=
  fun m => (Ok tt, {| world := world m; session := f (session m); trace := trace m |}).

(** A call to a collaborator: the world answers and moves on, and the call
    is logged with the session as it stands. *)
Definition invoke {W A} (call : W -> outcome A * W) (ev : outcome A -> event) : M W A :=
  fun m =>
    let (r, w') := call (world m) in
    (r, {| world := w'; session := session m;
           trace := trace m ++ [(session m, ev r)] |}).

Notation "'let*' x ':=' c 'in' k" := (bind c (fun x => k))
  (at level 10, x name, c at level 100, k at level 200, only parsing).

(** ** The stages *)

(** The four writes to the session, one per stage. *)
Definition store_requirements (result : json) (s : InterviewState) : InterviewState :=
  {| candidate_name := candidate_name s;
     job_description := job_description s;
     analyzed_requirements := result;
     generated_questions := generated_questions s;
     evaluations := evaluations s;
     final_recommendation := final_recommendation s |}.

Definition append_question (response : string) (s : InterviewState) : InterviewState :=
  {| candidate_name := candidate_name s;
     job_description := job_description s;
     analyzed_requirements := analyzed_requirements s;
     generated_questions := generated_questions s ++ [response];
     evaluations := evaluations s;
     final_recommendation := final_recommendation s |}.

Definition append_evaluation (entry : json) (s : InterviewState) : InterviewState :=
  {| candidate_name := candidate_name s;
     job_description := job_description s;
     analyzed_requirements := analyzed_requirements s;
     generated_questions := generated_questions s;
     evaluations := evaluations s ++ [entry];
     final_recommendation := final_recommendation s |}.

Definition store_recommendation (decision : string) (s : InterviewState) : InterviewState :=
  {| candidate_name := candidate_name s;
     job_description := job_description s;
     analyzed_requirements := analyzed_requirements s;
     generated_questions := generated_questions s;
     evaluations := evaluations s;
     final_recommendation := Some decision |}.

(** The arguments [generate_question] passes to its chain, built in the
    order of the source. *)
Definition q_args (state : InterviewState) (topic : json) : outcome QInput :=
  let? role := dict_get (analyzed_requirements state) "role_title" JNull in
  let? techs := dict_get (analyzed_requirements state) "technical_skills" (JList []) in
  let? tech_skills := str_join ", " techs in
  let? seniority := dict_get (analyzed_requirements state) "seniority_level" JNull in
  Ok {| q_role := role;
        q_tech_skills := tech_skills;
        q_seniority := seniority;
        q_previous_questions := String.concat LF (generated_questions state);
        q_focus_area := topic |}.

Definition eval_args (state : InterviewState) (question answer : string) : outcome EvalInput :=
  let? skills := dict_get (analyzed_requirements state) "technical_skills" JNull in
  Ok {| ev_question := question; ev_answer := answer; ev_skills := skills |}.

(** The dictionary [evaluate_answer] appends to the log. *)
Definition evaluation_entry (question answer : string) (score reasoning : json) : json :=
  JDict [("question", JStr question); ("answer", JStr answer);
         ("score", score); ("reasoning", reasoning)].

Section Stages.

Context {W : Type} `{Collaborators W}.

(** What an f-string writes for [{v}]. *)
Definition py_format (v : json) : string :=
  match v with
  | JStr s => s
  | JInt z => pretty z
  | JNull => "None"
  | JBool true => "True"
  | JBool false => "False"
  | _ => repr v
  end.

(** Agent 1.  The result is stored before its role title is read for the
    console, so a result without one is stored and then raises.  The source
    returns the session it was given, which its caller does not use. *)
Definition analyze_jd : M W unit :=
  let* state := get_state in
  let* result := invoke (jd_agent (job_description state))
                        (JdCall (job_description state)) in
  let* _ := modify (store_requirements result) in
  let* _ := lift (subscript result "role_title") in
  ret tt.

(** Agent 2. *)
Definition generate_question (topic : json) : M W string :=
  let* state := get_state in
  let* args := lift (q_args state topic) in
  let* response := invoke (q_agent args) (QCall args) in
  let* _ := modify (append_question response) in
  ret response.

(** Agent 3. *)
Definition evaluate_answer (question answer : string) : M W json :=
  let* state := get_state in
  let* args := lift (eval_args state question answer) in
  let* result := invoke (eval_agent args) (EvalCall args) in
  let* score := lift (subscript result "score") in
  let* reasoning := lift (subscript result "reasoning") in
  let* _ := modify (append_evaluation (evaluation_entry question answer score reasoning)) in
  ret result.

(** The text one entry adds to the summary. *)
Definition entry_block (entry : json) : outcome string :=
  let? q := subscript entry "question" in
  let? sc := subscript entry "score" in
  let? notes := subscript entry "reasoning" in
  Ok ("Q: " +:+ py_format q +:+ LF +:+ "Score: " +:+ py_format sc +:+ "/10" +:+ LF
      +:+ "Notes: " +:+ py_format notes +:+ LF +:+ LF).

(** The loop [for entry in state.evaluations: eval_summary += ...]. *)
Fixpoint eval_summary_loop (eval_summary : string) (entries : list json) : outcome string :=
  match entries with
  | [] => Ok eval_summary
  | entry :: rest =>
      let? block := entry_block entry in
      eval_summary_loop (eval_summary +:+ block) rest
  end.

Definition rec_args (state : InterviewState) : outcome RecInput :=
  let? eval_summary := eval_summary_loop "" (evaluations state) in
  let? role := dict_get (analyzed_requirements state) "role_title" JNull in
  Ok {| rec_name := candidate_name state; rec_role := role;
        rec_evaluations := eval_summary |}.

(** Agent 4. *)
Definition generate_final_decision : M W string :=
  let* state := get_state in
  let* args := lift (rec_args state) in
  let* decision := invoke (rec_agent args) (RecCall args) in
  let* _ := modify (store_recommendation decision) in
  ret decision.

(** ** The orchestrator *)

(** One turn of the loop over the topics; the last step is the read of
    [evaluation['score']] for the console. *)
Definition interview_cycle (skill : json) : M W unit :=
  let* question := generate_question skill in
  let* answer := invoke (input "Your Answer: ") (InputCall "Your Answer: ") in
  let* evaluation := evaluate_answer question answer in
  let* _ := lift (subscript evaluation "score") in
  ret tt.

Fixpoint for_each (items : list json) (body : json -> M W unit) : M W unit :=
  match items with
  | [] => ret tt
  | x :: rest => let* _ := body x in for_each rest body
  end.

(** The topics of the loop: [state.analyzed_requirements.get('technical_skills', [])[:2]],
    then iterated. *)
Definition topics_of (state : InterviewState) : outcome (list json) :=
  let? techs := dict_get (analyzed_requirements state) "technical_skills" (JList []) in
  let? skills := slice_to 2 techs in
  py_iter skills.

(** The run once the session exists. *)
Definition interview : M W unit :=
  let* _ := analyze_jd in
  let* state := get_state in
  let* skills := lift (topics_of state) in
  let* _ := for_each skills interview_cycle in
  let* final_verdict := generate_final_decision in
  ret tt.

(** The machine at the first line of [run_interview]: a fresh session and no
    call made yet. *)
Definition boot (jd_text candidate_name : string) (w : W) : machine W :=
  {| world := w;
     session := new_InterviewState candidate_name jd_text;
     trace := [] |}.

(** The orchestrator, from a world [w]: its outcome, and the machine it
    leaves. *)
Definition run_interview (jd_text candidate_name : string) (w : W) : outcome unit * machine W :=
  interview (boot jd_text candidate_name w).

End Stages.

(** ** Start-up

    The lines that run when the module is loaded: the settings are read from
    the process environment (as [load_dotenv] left it), the process exits
    with status 1 when the endpoint or the key is missing, and the model
    client is built from the other two. *)

(** [os.getenv(key)] and [os.getenv(key, dflt)]. *)
Definition getenv (environ : gmap string string) (key : string) : option string :=
  environ !! key.

Definition getenv_default (environ : gmap string string) (key dflt : string) : string :=
  default dflt (environ !! key).

(** [not v] for a value that is [None] or a text. *)
Definition py_not (v : option string) : bool :=
  match v with
  | None => true
  | Some s => String.eqb s ""
  end.

(** The keyword arguments given to [AzureChatOpenAI]; the temperature is the
    literal 0.3, kept as 3 tenths. *)
Record AzureChatOpenAI : Type := {
  azure_deployment : string;
  api_version : string;
  temperature_tenths : Z
}.

Inductive startup : Type :=
  | SystemExit (code : Z)
  | Loaded (llm : AzureChatOpenAI).

Definition load_module (environ : gmap string string) : startup :=
  let AZURE_ENDPOINT := getenv environ "AZURE_OPENAI_ENDPOINT" in
  let AZURE_API_KEY := getenv environ "AZURE_OPENAI_API_KEY" in
  let AZURE_API_VERSION :=
    getenv_default environ "AZURE_OPENAI_API_VERSION" "2024-12-01-preview" in
  let DEPLOYMENT_NAME :=
    getenv_default environ "AZURE_OPENAI_CHAT_DEPLOYMENT_NAME" "gpt-4o-mini" in
  if py_not AZURE_ENDPOINT || py_not AZURE_API_KEY then SystemExit 1
  else Loaded {| azure_deployment := DEPLOYMENT_NAME;
                 api_version := AZURE_API_VERSION;
                 temperature_tenths := 3 |}.

(** ** Scripted collaborators

    The doubles used by the scenarios: each chain answers from a script; the
    candidate either reads the answers from a queue, and the console is at
    its end when the queue is empty, or gives the same answer every time. *)

Module Scripted.

Definition read_answer (prompt : string) (queue : list string) : outcome string * list string :=
  match queue with
  | [] => (Raise (ExternalError "EOFError"), [])
  | a :: rest => (Ok a, rest)
  end.

Definition always_answer (a : string) (prompt : string) (asked : nat) : outcome string * nat :=
  (Ok a, S asked).

Definition model {W : Type} (candidate : string -> W -> outcome string * W)
    (extraction : outcome json) (ask : QInput -> outcome string)
    (grade : EvalInput -> outcome json) (verdict : RecInput -> outcome string)
  : Collaborators W :=
  {| jd_agent := fun _ w => (extraction, w);
     q_agent := fun i w => (ask i, w);
     eval_agent := fun i w => (grade i, w);
     rec_agent := fun i w => (verdict i, w);
     input := candidate;
     repr := fun _ => "<object>" |}.

Definition senior_python : json :=
  JDict [("role_title", JStr "Senior Python Developer");
         ("technical_skills", JList [JStr "Django"; JStr "Azure"]);
         ("soft_skills", JList []);
         ("seniority_level", JStr "Senior")].

Definition five_skills : list json :=
  [JStr "Django"; JStr "REST APIs"; JStr "Azure"; JStr "LangChain"; JStr "AI Agents"].

Definition python_five : json :=
  JDict [("role_title", JStr "Senior Python Developer");
         ("technical_skills", JList five_skills);
         ("soft_skills", JList []);
         ("seniority_level", JStr "Senior")].

(** An object that has a role title and one skill, and neither soft skills
    nor a seniority level. *)
Definition role_and_skill : json :=
  JDict [("role_title", JStr "Engineer");
         ("technical_skills", JList [JStr "Django"])].

Definition role_only : list (string * json) := [("role_title", JStr "Engineer")].

Definition seven_ok : json := JDict [("score", JInt 7); ("reasoning", JStr "ok")].

Definition forty_two : json := JDict [("score", JInt 42); ("reasoning", JStr "off the scale")].

Definition about (topic : json) : string :=
  match topic with
  | JStr s => "Tell me about " +:+ s
  | _ => "Tell me about it"
  end.

Definition ask_about (i : QInput) : outcome string := Ok (about (q_focus_area i)).

(** Collaborators that answer [extraction], then as in the end-to-end
    scenario: a question per topic, 7 and "ok", "HIRE". *)
Definition after (extraction : outcome json) : Collaborators (list string) :=
  model read_answer extraction ask_about (fun _ => Ok seven_ok) (fun _ => Ok "HIRE").

Definition talkative : Collaborators nat :=
  model (always_answer "It depends.") (Ok senior_python) ask_about
        (fun _ => Ok seven_ok) (fun _ => Ok "HIRE").

(** A model that asks the same question whatever the topic, and scores 42. *)
Definition repetitive : Collaborators (list string) :=
  model read_answer (Ok senior_python) (fun _ => Ok "Why Python?")
        (fun _ => Ok forty_two) (fun _ => Ok "FOLLOW-UP").

(** A session in which "Why Python?" has been asked and evaluated once. *)
Definition asked_once : InterviewState :=
  {| candidate_name := "Alex Developer";
     job_description := "Senior Python Developer, skills: Django, Azure";
     analyzed_requirements := senior_python;
     generated_questions := ["Why Python?"];
     evaluations := [evaluation_entry "Why Python?" "It is readable." (JInt 7) (JStr "ok")];
     final_recommendation := None |}.

Definition resumed : machine (list string) :=
  {| world := ["Because."]; session := asked_once; trace := [] |}.

End Scripted.

(** * The vocabulary of the properties *)

(** ** Frames *)

(** Every field but [analyzed_requirements] is as before. *)
Definition writes_only_requirements (s s' : InterviewState) : Prop :=
  candidate_name s' = candidate_name s
  /\ job_description s' = job_description s
  /\ generated_questions s' = generated_questions s
  /\ evaluations s' = evaluations s
  /\ final_recommendation s' = final_recommendation s.

(** Every field but [generated_questions] is as before, and the questions
    are the old ones followed by new ones. *)
Definition appends_only_questions (s s' : InterviewState) : Prop :=
  candidate_name s' = candidate_name s
  /\ job_description s' = job_description s
  /\ analyzed_requirements s' = analyzed_requirements s
  /\ generated_questions s `prefix_of` generated_questions s'
  /\ evaluations s' = evaluations s
  /\ final_recommendation s' = final_recommendation s.

Definition appends_only_evaluations (s s' : InterviewState) : Prop :=
  candidate_name s' = candidate_name s
  /\ job_description s' = job_description s
  /\ analyzed_requirements s' = analyzed_requirements s
  /\ generated_questions s' = generated_questions s
  /\ evaluations s `prefix_of` evaluations s'
  /\ final_recommendation s' = final_recommendation s.

Definition writes_only_recommendation (s s' : InterviewState) : Prop :=
  candidate_name s' = candidate_name s
  /\ job_description s' = job_description s
  /\ analyzed_requirements s' = analyzed_requirements s
  /\ generated_questions s' = generated_questions s
  /\ evaluations s' = evaluations s.

(** Across a whole run: the identity of the session is fixed and the two
    logs only grow at their end. *)
Definition extends (s s' : InterviewState) : Prop :=
  candidate_name s' = candidate_name s
  /\ job_description s' = job_description s
  /\ generated_questions s `prefix_of` generated_questions s'
  /\ evaluations s `prefix_of` evaluations s'.


Definition keeps_recommendation (s s' : InterviewState) : Prop :=
  final_recommendation s' = final_recommendation s.

Definition keeps_requirements (s s' : InterviewState) : Prop :=
  analyzed_requirements s' = analyzed_requirements s.

(** The four fields of the schema and nothing else. *)
Definition four_fields (v : json) : bool :=
  JobAnalysis v && match v with JDict d => Nat.eqb (length d) 4 | _ => false end.

(** ** Completed turns of the loop *)

(** What one completed turn exchanged with the collaborators. *)
Record turn : Type := {
  t_qargs : QInput;
  t_question : string;
  t_answer : string;
  t_eargs : EvalInput;
  t_result : json;
  t_score : json;
  t_reasoning : json
}.

Definition turn_entry (c : turn) : json :=
  evaluation_entry (t_question c) (t_answer c) (t_score c) (t_reasoning c).

Definition after_turn (s : InterviewState) (c : turn) : InterviewState :=
  append_evaluation (turn_entry c) (append_question (t_question c) s).

Definition turn_events (s : InterviewState) (c : turn) : list (InterviewState * event) :=
  [ (s, QCall (t_qargs c) (Ok (t_question c)));
    (append_question (t_question c) s, InputCall "Your Answer: " (Ok (t_answer c)));
    (append_question (t_question c) s, EvalCall (t_eargs c) (Ok (t_result c))) ].

Fixpoint turns_events (s : InterviewState) (cs : list turn) : list (InterviewState * event) :=
  match cs with
  | [] => []
  | c :: rest => turn_events s c ++ turns_events (after_turn s c) rest
  end.

(** The kinds of call, and the three calls of a turn. *)
Inductive kind : Type := Extraction | Question | Answer | Evaluation | Recommendation.

Definition kind_of (e : event) : kind :=
  match e with
  | JdCall _ _ => Extraction
  | QCall _ _ => Question
  | InputCall _ _ => Answer
  | EvalCall _ _ => Evaluation
  | RecCall _ _ => Recommendation
  end.

Definition kinds (t : list (InterviewState * event)) : list kind :=
  (fun se => kind_of se.2) <$> t.

Definition cycle_kinds : list kind := [Question; Answer; Evaluation].

(** The question texts the question chain answered, in order. *)
Definition asked (t : list (InterviewState * event)) : list string :=
  omap (fun se => match se.2 with QCall _ (Ok q) => Some q | _ => None end) t.

(** ** Runs *)

Section Vocabulary.

Context {W : Type}.

(** [post c m Q] says the run of [c] from [m] ends in an outcome and a
    machine related by [Q].  Every computation is a total function, so a
    postcondition is always about a run that ends. *)
Definition post {A} (c : M W A) (m : machine W) (Q : outcome A -> machine W -> Prop) : Prop :=
  Q (c m).1 (c m).2.

Section Advance.

Variable R : relation InterviewState.
Variable P : event -> Prop.

(** A computation [advances] a machine under a relation [R] on sessions and a
    predicate [P] on events when it only adds events satisfying [P] to the
    trace, and every session it passes through (the logged ones and the last)
    is [R]-related to the one it started from and to the one it ends in. *)
Definition advances (m m' : machine W) : Prop :=
  exists t, trace m' = trace m ++ t
    /\ R (session m) (session m')
    /\ Forall (fun se => R (session m) se.1 /\ R se.1 (session m') /\ P se.2) t.

(** A computation is [steady] when it advances every machine, whatever its
    outcome. *)
Definition steady {A} (c : M W A) : Prop := forall m, advances m (c m).2.

End Advance.


(** The log and the questions answered so far, entry by entry. *)
Definition aligned (m : machine W) : Prop :=
  Forall2 (fun q entry => subscript entry "question" = Ok (JStr q))
          (asked (trace m)) (evaluations (session m)).

Context `{Collaborators W}.

(** The exchanges of a turn were answered by the collaborators, and the
    entry of the turn is read off the evaluation they gave. *)
Definition answered (c : turn) : Prop :=
  (exists w w', q_agent (t_qargs c) w = (Ok (t_question c), w'))
  /\ (exists w w', input "Your Answer: " w = (Ok (t_answer c), w'))
  /\ (exists w w', eval_agent (t_eargs c) w = (Ok (t_result c), w'))
  /\ ev_question (t_eargs c) = t_question c
  /\ ev_answer (t_eargs c) = t_answer c
  /\ subscript (t_result c) "score" = Ok (t_score c)
  /\ subscript (t_result c) "reasoning" = Ok (t_reasoning c).

(** Collaborators that always answer, the evaluation chain with an object
    that has a score and a reasoning. *)
Definition cooperative : Prop :=
  (forall args w, exists q w', q_agent args w = (Ok q, w'))
  /\ (forall prompt w, exists a w', input prompt w = (Ok a, w'))
  /\ (forall args w, exists result w' score reasoning,
        eval_agent args w = (Ok result, w')
        /\ subscript result "score" = Ok score
        /\ subscript result "reasoning" = Ok reasoning)
  /\ (forall args w, exists d w', rec_agent args w = (Ok d, w')).

Definition summarisable (entries : list json) : Prop :=
  Forall (fun entry => exists block, entry_block entry = Ok block) entries.

(** The session holds the requirements [v] and a log the summary can read. *)
Definition ready (v : json) (m : machine W) : Prop :=
  analyzed_requirements (session m) = v /\ summarisable (evaluations (session m)).

End Vocabulary.

(** ** Transcripts *)

(** The topics the question chain was asked about, the answers read from the
    console and the objects the evaluation chain answered, each in the order
    of the calls. *)
Definition topics_asked (t : list (InterviewState * event)) : list json :=
  omap (fun se => match se.2 with QCall args _ => Some (q_focus_area args) | _ => None end) t.

Definition answers (t : list (InterviewState * event)) : list string :=
  omap (fun se => match se.2 with InputCall _ (Ok a) => Some a | _ => None end) t.

Definition graded (t : list (InterviewState * event)) : list json :=
  omap (fun se => match se.2 with EvalCall _ (Ok result) => Some result | _ => None end) t.

Section Calls.

Context {W : Type} `{Collaborators W}.

(** A logged call was made with the arguments its stage builds from the
    session logged with it. *)
Definition built_from_session (se : InterviewState * event) : Prop :=
  match se.2 with
  | JdCall jd _ => jd = job_description se.1
  | QCall args _ => q_args se.1 (q_focus_area args) = Ok args
  | InputCall prompt _ => prompt = "Your Answer: "
  | EvalCall args _ => eval_args se.1 (ev_question args) (ev_answer args) = Ok args
  | RecCall args _ => rec_args se.1 = Ok args
  end.

(** A computation that only logs calls built from the session. *)
Definition logs_built {A} (c : M W A) : Prop :=
  forall m, Forall built_from_session (trace m) ->
            Forall built_from_session (trace (c m).2).

(** The log of the evaluations against the questions stored: one entry per
    question, with that question. *)
Definition evaluated (questions : list string) (entries : list json) : Prop :=
  Forall2 (fun q entry => subscript entry "question" = Ok (JStr q)) questions entries.

(** Where a turn that raised left the machine: before the question chain
    was called, at its call, or after a question was stored, with at most
    the answer and evaluation calls behind it. *)
Inductive stopped_turn (skill : json) (m m' : machine W) : Prop :=
  | stopped_before_question :
      session m' = session m ->
      trace m' = trace m ->
      stopped_turn skill m m'
  | stopped_at_question (args : QInput) (e : exn) :
      q_focus_area args = skill ->
      session m' = session m ->
      trace m' = trace m ++ [(session m, QCall args (Raise e))] ->
      stopped_turn skill m m'
  | stopped_after_question (args : QInput) (q : string)
      (t : list (InterviewState * event)) :
      q_focus_area args = skill ->
      session m' = append_question q (session m) ->
      trace m' = trace m ++ (session m, QCall args (Ok q)) :: t ->
      Forall (fun se => kind_of se.2 = Answer \/ kind_of se.2 = Evaluation) t ->
      stopped_turn skill m m'.

End Calls.

(** ** More scripted collaborators *)

Module Cases.

(** An extraction whose skills are one text instead of a list of texts; its
    second character takes two bytes and its third takes three. *)
Definition skills_as_text : json :=
  JDict [("role_title", JStr "Engineer"); ("technical_skills", JStr "Gö語C")].

(** An extraction whose third skill is a number. *)
Definition number_among_skills : json :=
  JDict [("role_title", JStr "Engineer");
         ("technical_skills", JList [JStr "Django"; JStr "Azure"; JInt 3])].

(** An evaluation without a score. *)
Definition no_score : json := JDict [("reasoning", JStr "ok")].

(** The evaluation chain answers without a score. *)
Definition ungraded : Collaborators (list string) :=
  Scripted.model Scripted.read_answer (Ok Scripted.senior_python) Scripted.ask_about
                 (fun _ => Ok no_score) (fun _ => Ok "HIRE").

(** The extraction chain answers a list instead of an object. *)
Definition listing : Collaborators (list string) :=
  Scripted.after (Ok (JList [JStr "Django"])).

(** A last chain that answers "HIRE" the first time it is called and
    "NO HIRE" afterwards; the world counts its calls. *)
Definition fickle : Collaborators nat :=
  {| jd_agent := fun _ n => (Ok Scripted.senior_python, n);
     q_agent := fun i n => (Scripted.ask_about i, n);
     eval_agent := fun _ n => (Ok Scripted.seven_ok, n);
     rec_agent := fun _ n => (Ok (if Nat.eqb n 0 then "HIRE" else "NO HIRE"), S n);
     input := Scripted.always_answer "It depends.";
     repr := fun _ => "<object>" |}.

(** An environment with the endpoint set and the key set to nothing. *)
Definition empty_key : gmap string string :=
  {[ "AZURE_OPENAI_ENDPOINT" := "https://example.openai.azure.com";
     "AZURE_OPENAI_API_KEY" := "" ]}.

(** An environment with both set, and an empty API version. *)
Definition empty_version : gmap string string :=
  {[ "AZURE_OPENAI_ENDPOINT" := "https://example.openai.azure.com";
     "AZURE_OPENAI_API_KEY" := "secret";
     "AZURE_OPENAI_API_VERSION" := "" ]}.

End Cases.

(** * Properties *)

(** ** Postconditions *)

Section Logic.

Context {W : Type}.

Lemma post_mono {A} (c : M W A) m (Q Q' : outcome A -> machine W -> Prop) :
  post c m Q -> (forall r m', Q r m' -> Q' r m') -> post c m Q'.
Proof. unfold post. auto. Qed.

Lemma post_ret {A} (a : A) m (Q : outcome A -> machine W -> Prop) :
  Q (Ok a) m -> post (ret a) m Q.
Proof. done. Qed.

Lemma post_bind {A B} (c : M W A) (k : A -> M W B) m (Q : outcome B -> machine W -> Prop) :
  post c m (fun r m' =>
    match r with
    | Ok a => post (k a) m' Q
    | Raise e => Q (Raise e) m'
    end) ->
  post (bind c k) m Q.
Proof.
  unfold post, bind. destruct (c m) as [[a|e] m']; done.
Qed.

(** The loop rule: [Inv n] holds after [n] turns; a turn that raises must
    establish the postcondition on its own. *)
Lemma post_for_each (Inv : nat -> machine W -> Prop) items body m
    (Q : outcome unit -> machine W -> Prop) :
  Inv 0 m ->
  (forall n x m1, items !! n = Some x -> Inv n m1 ->
     post (body x) m1 (fun r m2 =>
       match r with
       | Ok _ => Inv (S n) m2
       | Raise e => Q (Raise e) m2
       end)) ->
  (forall m', Inv (length items) m' -> Q (Ok tt) m') ->
  post (for_each items body) m Q.
Proof.
  revert Inv m. induction items as [|x rest IH]; intros Inv m H0 Hstep Hend.
  - apply post_ret. by apply Hend.
  - simpl. apply post_bind.
    eapply post_mono; [apply (Hstep 0 x m); done|].
    intros [[]|e] m2 Hr; [|done].
    apply (IH (fun n => Inv (S n))); [done| |done].
    intros n y m1 Hy Hn. by apply (Hstep (S n)).
Qed.

End Logic.

(** ** Text lemmas *)

Lemma append_empty_r (s : string) : s +:+ "" = s.
Proof.
  induction s as [|c s IH]; [done|].
  change (String c (s +:+ "") = String c s). by rewrite IH.
Qed.

Lemma append_assoc (s1 s2 s3 : string) : (s1 +:+ s2) +:+ s3 = s1 +:+ (s2 +:+ s3).
Proof.
  induction s1 as [|c s1 IH]; [done|].
  change (String c ((s1 +:+ s2) +:+ s3) = String c (s1 +:+ (s2 +:+ s3))).
  by rewrite IH.
Qed.

Lemma concat_empty_cons (b : string) (bs : list string) :
  String.concat "" (b :: bs) = b +:+ String.concat "" bs.
Proof. destruct bs; simpl; [by rewrite append_empty_r|done]. Qed.

(** ** The stages, one by one *)

Section StageProperties.

Context {W : Type} `{Collaborators W}.

(** The block of an entry that [evaluate_answer] wrote: its question, its
    score out of ten and its reasoning; the answer is not part of it. *)
Lemma entry_block_entry question answer score reasoning :
  entry_block (evaluation_entry question answer score reasoning)
  = Ok ("Q: " +:+ question +:+ LF +:+ "Score: " +:+ py_format score +:+ "/10" +:+ LF
        +:+ "Notes: " +:+ py_format reasoning +:+ LF +:+ LF).
Proof. reflexivity. Qed.


(** C6: whenever the question chain answers, [generate_question] appends the
    text it answered to the session's questions and returns it; nothing is
    compared with the questions already stored, so a repeated text is stored
    again. *)
Theorem generate_question_appends topic (m : machine W) args response w' :
  q_args (session m) topic = Ok args ->
  q_agent args (world m) = (Ok response, w') ->
  generate_question topic m =
    (Ok response,
     {| world := w';
        session := append_question response (session m);
        trace := trace m ++ [(session m, QCall args (Ok response))] |})
  /\ generated_questions (session (generate_question topic m).2)
     = generated_questions (session m) ++ [response].
Proof.
  intros Hargs Hcall.
  assert (generate_question topic m =
    (Ok response,
     {| world := w';
        session := append_question response (session m);
        trace := trace m ++ [(session m, QCall args (Ok response))] |})) as Hrun.
  { unfold generate_question, bind, get_state, lift, invoke, modify, ret.
    rewrite Hargs. simpl. by rewrite Hcall. }
  split; [done|]. by rewrite Hrun.
Qed.

(** C7: whenever the evaluation chain answers an object with a score and a
    reasoning, [evaluate_answer] appends the entry made of the question, the
    answer, that score and that reasoning; the score is whatever value the
    model gave, of any size or type. *)
Theorem evaluate_answer_records question answer (m : machine W) args result score reasoning w' :
  eval_args (session m) question answer = Ok args ->
  eval_agent args (world m) = (Ok result, w') ->
  subscript result "score" = Ok score ->
  subscript result "reasoning" = Ok reasoning ->
  evaluate_answer question answer m =
    (Ok result,
     {| world := w';
        session := append_evaluation
                     (evaluation_entry question answer score reasoning) (session m);
        trace := trace m ++ [(session m, EvalCall args (Ok result))] |})
  /\ evaluations (session (evaluate_answer question answer m).2)
     = evaluations (session m)
       ++ [JDict [("question", JStr question); ("answer", JStr answer);
                  ("score", score); ("reasoning", reasoning)]].
Proof.
  intros Hargs Hcall Hscore Hreasoning.
  assert (evaluate_answer question answer m =
    (Ok result,
     {| world := w';
        session := append_evaluation
                     (evaluation_entry question answer score reasoning) (session m);
        trace := trace m ++ [(session m, EvalCall args (Ok result))] |})) as Hrun.
  { unfold evaluate_answer, bind, get_state, lift, invoke, modify, ret.
    rewrite Hargs. simpl. rewrite Hcall, Hscore, Hreasoning. done. }
  split; [done|]. by rewrite Hrun.
Qed.

End StageProperties.

(** ** What a computation may touch *)

Section Advances.

Context {W : Type} `{Collaborators W}.
Variable R : relation InterviewState.
Variable P : event -> Prop.
Context `{!PreOrder R}.

Lemma advances_refl (m : machine W) : advances R P m m.
Proof.
  exists []. rewrite app_nil_r. split; [done|]. split; [reflexivity|constructor].
Qed.

Lemma advances_trans (m1 m2 m3 : machine W) :
  advances R P m1 m2 -> advances R P m2 m3 -> advances R P m1 m3.
Proof.
  intros (t1 & E1 & R1 & F1) (t2 & E2 & R2 & F2).
  exists (t1 ++ t2). split; [by rewrite E2, E1, app_assoc|].
  split; [by etrans|].
  apply Forall_app. split.
  - eapply Forall_impl; [exact F1|]. intros [s e] (? & ? & ?); simpl in *.
    repeat split; [done| by etrans |done].
  - eapply Forall_impl; [exact F2|]. intros [s e] (? & ? & ?); simpl in *.
    repeat split; [by etrans|done|done].
Qed.

Lemma steady_ret {A} (a : A) : steady (W := W) R P (ret a).
Proof. intros m. apply advances_refl. Qed.

Lemma steady_lift {A} (o : outcome A) : steady (W := W) R P (lift o).
Proof. intros m. apply advances_refl. Qed.

Lemma steady_get_state : steady (W := W) R P get_state.
Proof. intros m. apply advances_refl. Qed.

Lemma steady_modify f : (forall s, R s (f s)) -> steady (W := W) R P (modify f).
Proof.
  intros Hf m. exists []. simpl. rewrite app_nil_r.
  split; [done|]. split; [apply Hf|constructor].
Qed.

Lemma steady_invoke {A} (call : W -> outcome A * W) ev :
  (forall r, P (ev r)) -> steady (W := W) R P (invoke call ev).
Proof.
  intros Hev m. unfold invoke. destruct (call (world m)) as [r w'].
  exists [(session m, ev r)]. simpl.
  split; [done|]. split; [reflexivity|].
  apply Forall_singleton. simpl. split; [reflexivity|]. split; [reflexivity|apply Hev].
Qed.

Lemma steady_bind {A B} (c : M W A) (k : A -> M W B) :
  steady (W := W) R P c -> (forall a, steady (W := W) R P (k a)) -> steady (W := W) R P (bind c k).
Proof.
  intros Hc Hk m. unfold bind. specialize (Hc m).
  destruct (c m) as [[a|e] m1]; [|done].
  eapply advances_trans; [exact Hc|]. apply Hk.
Qed.

Lemma steady_for_each items body :
  (forall x, steady (W := W) R P (body x)) -> steady (W := W) R P (for_each items body).
Proof.
  intros Hbody. induction items as [|x rest IH]; simpl.
  - apply steady_ret.
  - apply steady_bind; [apply Hbody|]. intros _. apply IH.
Qed.

(** The four stages and the orchestrator's loop, each under the closure
    conditions its own write needs. *)
Lemma analyze_jd_steady :
  (forall v s, R s (store_requirements v s)) -> (forall jd r, P (JdCall jd r)) ->
  steady (W := W) R P analyze_jd.
Proof.
  intros HR HP. unfold analyze_jd.
  apply steady_bind; [apply steady_get_state|]. intros state.
  apply steady_bind; [by apply steady_invoke|]. intros result.
  apply steady_bind; [by apply steady_modify|]. intros _.
  apply steady_bind; [apply steady_lift|]. intros _. apply steady_ret.
Qed.

Lemma generate_question_steady topic :
  (forall q s, R s (append_question q s)) -> (forall a r, P (QCall a r)) ->
  steady (W := W) R P (generate_question topic).
Proof.
  intros HR HP. unfold generate_question.
  apply steady_bind; [apply steady_get_state|]. intros state.
  apply steady_bind; [apply steady_lift|]. intros args.
  apply steady_bind; [by apply steady_invoke|]. intros response.
  apply steady_bind; [by apply steady_modify|]. intros _. apply steady_ret.
Qed.

Lemma evaluate_answer_steady question answer :
  (forall e s, R s (append_evaluation e s)) -> (forall a r, P (EvalCall a r)) ->
  steady (W := W) R P (evaluate_answer question answer).
Proof.
  intros HR HP. unfold evaluate_answer.
  apply steady_bind; [apply steady_get_state|]. intros state.
  apply steady_bind; [apply steady_lift|]. intros args.
  apply steady_bind; [by apply steady_invoke|]. intros result.
  apply steady_bind; [apply steady_lift|]. intros score.
  apply steady_bind; [apply steady_lift|]. intros reasoning.
  apply steady_bind; [by apply steady_modify|]. intros _. apply steady_ret.
Qed.

Lemma generate_final_decision_steady :
  (forall d s, R s (store_recommendation d s)) -> (forall a r, P (RecCall a r)) ->
  steady (W := W) R P generate_final_decision.
Proof.
  intros HR HP. unfold generate_final_decision.
  apply steady_bind; [apply steady_get_state|]. intros state.
  apply steady_bind; [apply steady_lift|]. intros args.
  apply steady_bind; [by apply steady_invoke|]. intros decision.
  apply steady_bind; [by apply steady_modify|]. intros _. apply steady_ret.
Qed.

Lemma interview_cycle_steady skill :
  (forall q s, R s (append_question q s)) ->
  (forall e s, R s (append_evaluation e s)) ->
  (forall a r, P (QCall a r)) -> (forall p r, P (InputCall p r)) ->
  (forall a r, P (EvalCall a r)) ->
  steady (W := W) R P (interview_cycle skill).
Proof.
  intros HRq HRe HPq HPi HPe. unfold interview_cycle.
  apply steady_bind; [by apply generate_question_steady|]. intros question.
  apply steady_bind; [by apply steady_invoke|]. intros answer.
  apply steady_bind; [by apply evaluate_answer_steady|]. intros evaluation.
  apply steady_bind; [apply steady_lift|]. intros _. apply steady_ret.
Qed.

(** The orchestrator from the loop on, as [interview_run] unfolds it. *)
Lemma loop_and_decision_advance topics (m : machine W) :
  (forall q s, R s (append_question q s)) ->
  (forall e s, R s (append_evaluation e s)) ->
  (forall d s, R s (store_recommendation d s)) ->
  (forall e, P e) ->
  advances R P m
    (match for_each topics interview_cycle m with
     | (Raise e, m2) => (Raise e, m2)
     | (Ok _, m2) =>
         match generate_final_decision m2 with
         | (Raise e, m3) => (Raise e, m3)
         | (Ok _, m3) => (Ok tt, m3)
         end
     end).2.
Proof.
  intros HRq HRe HRd HP.
  assert (advances R P m (for_each topics interview_cycle m).2) as A2.
  { apply steady_for_each. intros skill. by apply interview_cycle_steady. }
  destruct (for_each topics interview_cycle m) as [[[]|e] m2]; [|done].
  assert (advances R P m2 (generate_final_decision m2).2) as A3.
  { by apply generate_final_decision_steady. }
  simpl in A2.
  destruct (generate_final_decision m2) as [[d|e] m3];
    simpl in *; by eapply advances_trans.
Qed.

Lemma interview_steady :
  (forall v s, R s (store_requirements v s)) ->
  (forall q s, R s (append_question q s)) ->
  (forall e s, R s (append_evaluation e s)) ->
  (forall d s, R s (store_recommendation d s)) ->
  (forall e, P e) ->
  steady (W := W) R P interview.
Proof.
  intros HRr HRq HRe HRd HP. unfold interview.
  apply steady_bind; [by apply analyze_jd_steady|]. intros _.
  apply steady_bind; [apply steady_get_state|]. intros state.
  apply steady_bind; [apply steady_lift|]. intros skills.
  apply steady_bind.
  { apply steady_for_each. intros skill. by apply interview_cycle_steady. }
  intros _.
  apply steady_bind; [by apply generate_final_decision_steady|]. intros _.
  apply steady_ret.
Qed.

End Advances.

(** ** Frames *)

Ltac frame_preorder :=
  split;
  [ intros s; repeat split; reflexivity
  | intros s1 s2 s3 H12 H23;
    repeat match goal with H : _ /\ _ |- _ => destruct H end;
    repeat split; (congruence || (etrans; eassumption)) ].

#[global] Instance writes_only_requirements_preorder : PreOrder writes_only_requirements.
Proof. unfold writes_only_requirements. frame_preorder. Qed.

#[global] Instance appends_only_questions_preorder : PreOrder appends_only_questions.
Proof. unfold appends_only_questions. frame_preorder. Qed.

#[global] Instance appends_only_evaluations_preorder : PreOrder appends_only_evaluations.
Proof. unfold appends_only_evaluations. frame_preorder. Qed.

#[global] Instance writes_only_recommendation_preorder : PreOrder writes_only_recommendation.
Proof. unfold writes_only_recommendation. frame_preorder. Qed.

#[global] Instance extends_preorder : PreOrder extends.
Proof. unfold extends. frame_preorder. Qed.

Lemma extends_store_requirements v s : extends s (store_requirements v s).
Proof. by repeat split. Qed.

Lemma extends_append_question q s : extends s (append_question q s).
Proof. repeat split; simpl; [by apply prefix_app_r|done]. Qed.

Lemma extends_append_evaluation e s : extends s (append_evaluation e s).
Proof. repeat split; simpl; [done|by apply prefix_app_r]. Qed.

Lemma extends_store_recommendation d s : extends s (store_recommendation d s).
Proof. by repeat split. Qed.

Section Frames.

Context {W : Type} `{Collaborators W}.

(** C9: each stage leaves every field but its own as it found it, whatever
    the outcome of the stage: [analyze_jd] writes [analyzed_requirements],
    [generate_question] appends to [generated_questions], [evaluate_answer]
    appends to [evaluations], [generate_final_decision] writes
    [final_recommendation].  Over a whole run, the name and the job
    description of every logged session and of the last one are those the
    run was started with, and the questions and evaluations of every logged
    session are a prefix of the last ones. *)
Theorem stages_keep_to_their_field :
  (forall m : machine W,
     writes_only_requirements (session m) (session (analyze_jd m).2))
  /\ (forall topic (m : machine W),
     appends_only_questions (session m) (session (generate_question topic m).2))
  /\ (forall question answer (m : machine W),
     appends_only_evaluations (session m) (session (evaluate_answer question answer m).2))
  /\ (forall m : machine W,
     writes_only_recommendation (session m) (session (generate_final_decision m).2))
  /\ (forall jd_text name (w : W),
     let m' := (run_interview jd_text name w).2 in
     candidate_name (session m') = name
     /\ job_description (session m') = jd_text
     /\ forall s e, (s, e) ∈ trace m' ->
          candidate_name s = name
          /\ job_description s = jd_text
          /\ generated_questions s `prefix_of` generated_questions (session m')
          /\ evaluations s `prefix_of` evaluations (session m')).
Proof.
  split; [|split; [|split; [|split]]].
  - intros m.
    destruct (analyze_jd_steady writes_only_requirements (fun _ => True)) with (m := m)
      as (t & _ & HR & _); done.
  - intros topic m.
    destruct (generate_question_steady appends_only_questions (fun _ => True) topic)
      with (m := m) as (t & _ & HR & _); try done.
    intros q s. repeat split; simpl. by apply prefix_app_r.
  - intros question answer m.
    destruct (evaluate_answer_steady appends_only_evaluations (fun _ => True) question answer)
      with (m := m) as (t & _ & HR & _); try done.
    intros e s. repeat split; simpl. by apply prefix_app_r.
  - intros m.
    destruct (generate_final_decision_steady writes_only_recommendation (fun _ => True))
      with (m := m) as (t & _ & HR & _); done.
  - intros jd_text name w m'.
    destruct (interview_steady extends (fun _ => True)
                extends_store_requirements extends_append_question
                extends_append_evaluation extends_store_recommendation
                (fun _ => I) (boot jd_text name w))
      as (t & Ht & (Hn & Hj & _) & Hall).
    fold (run_interview jd_text name w) in *. fold m' in Ht, Hn, Hj, Hall.
    split; [done|]. split; [done|].
    intros s e Hin. rewrite Ht in Hin. simpl in Hin.
    rewrite Forall_forall in Hall.
    destruct (Hall _ Hin) as ((Hn1 & Hj1 & _) & (_ & _ & Hq & He) & _).
    simpl in *. done.
Qed.

End Frames.

(** ** Run equations

    Each stage, unfolded to the answers of its collaborator. *)

Section Runs.

Context {W : Type} `{Collaborators W}.

Lemma analyze_jd_run (m : machine W) :
  analyze_jd m =
    let (r, w') := jd_agent (job_description (session m)) (world m) in
    let t := trace m ++ [(session m, JdCall (job_description (session m)) r)] in
    match r with
    | Raise e => (Raise e, {| world := w'; session := session m; trace := t |})
    | Ok v =>
        (let? _ := subscript v "role_title" in Ok tt,
         {| world := w'; session := store_requirements v (session m); trace := t |})
    end.
Proof.
  unfold analyze_jd, bind, get_state, invoke, modify, lift, ret.
  destruct (jd_agent _ _) as [[v|e] w']; [|done]. simpl.
  by destruct (subscript v "role_title").
Qed.

Lemma generate_question_run topic (m : machine W) :
  generate_question topic m =
    match q_args (session m) topic with
    | Raise e => (Raise e, m)
    | Ok args =>
        let (r, w') := q_agent args (world m) in
        let t := trace m ++ [(session m, QCall args r)] in
        match r with
        | Raise e => (Raise e, {| world := w'; session := session m; trace := t |})
        | Ok response =>
            (Ok response,
             {| world := w'; session := append_question response (session m); trace := t |})
        end
    end.
Proof.
  unfold generate_question, bind, get_state, invoke, modify, lift, ret.
  destruct (q_args _ _) as [args|e]; [|done].
  by destruct (q_agent _ _) as [[response|e] w'].
Qed.

Lemma evaluate_answer_run question answer (m : machine W) :
  evaluate_answer question answer m =
    match eval_args (session m) question answer with
    | Raise e => (Raise e, m)
    | Ok args =>
        let (r, w') := eval_agent args (world m) in
        let t := trace m ++ [(session m, EvalCall args r)] in
        let m1 := {| world := w'; session := session m; trace := t |} in
        match r with
        | Raise e => (Raise e, m1)
        | Ok result =>
            match subscript result "score", subscript result "reasoning" with
            | Ok score, Ok reasoning =>
                (Ok result,
                 {| world := w';
                    session := append_evaluation
                                 (evaluation_entry question answer score reasoning)
                                 (session m);
                    trace := t |})
            | Raise e, _ => (Raise e, m1)
            | Ok _, Raise e => (Raise e, m1)
            end
        end
    end.
Proof.
  unfold evaluate_answer, bind, get_state, invoke, modify, lift, ret.
  destruct (eval_args _ _ _) as [args|e]; [|done].
  destruct (eval_agent _ _) as [[result|e] w']; [|done]. simpl.
  destruct (subscript result "score"); [|done].
  by destruct (subscript result "reasoning").
Qed.

Lemma generate_final_decision_run (m : machine W) :
  generate_final_decision m =
    match rec_args (session m) with
    | Raise e => (Raise e, m)
    | Ok args =>
        let (r, w') := rec_agent args (world m) in
        let t := trace m ++ [(session m, RecCall args r)] in
        match r with
        | Raise e => (Raise e, {| world := w'; session := session m; trace := t |})
        | Ok decision =>
            (Ok decision,
             {| world := w'; session := store_recommendation decision (session m);
                trace := t |})
        end
    end.
Proof.
  unfold generate_final_decision, bind, get_state, invoke, modify, lift, ret.
  destruct (rec_args _) as [args|e]; [|done].
  by destruct (rec_agent _ _) as [[decision|e] w'].
Qed.

Lemma interview_run (m : machine W) :
  interview m =
    match analyze_jd m with
    | (Raise e, m1) => (Raise e, m1)
    | (Ok _, m1) =>
        match topics_of (session m1) with
        | Raise e => (Raise e, m1)
        | Ok skills =>
            match for_each skills interview_cycle m1 with
            | (Raise e, m2) => (Raise e, m2)
            | (Ok _, m2) =>
                match generate_final_decision m2 with
                | (Raise e, m3) => (Raise e, m3)
                | (Ok _, m3) => (Ok tt, m3)
                end
            end
        end
    end.
Proof.
  unfold interview, bind, get_state, lift, ret.
  destruct (analyze_jd m) as [[[]|e] m1]; [|done].
  destruct (topics_of (session m1)) as [skills|e]; [|done].
  destruct (for_each skills interview_cycle m1) as [[[]|e] m2]; [|done].
  by destruct (generate_final_decision m2) as [[d|e] m3].
Qed.

End Runs.

(** ** The recommendation *)

#[global] Instance keeps_recommendation_preorder : PreOrder keeps_recommendation.
Proof. unfold keeps_recommendation. split; [done|]. intros s1 s2 s3. congruence. Qed.

Section Recommendation.

Context {W : Type} `{Collaborators W}.




End Recommendation.

(** ** Completed turns of the loop *)

Lemma kinds_turns_events cs : forall s,
  kinds (turns_events s cs) = mjoin (replicate (length cs) cycle_kinds).
Proof.
  induction cs as [|c rest IH]; intros s; [done|].
  simpl. unfold kinds in *. simpl. by rewrite IH.
Qed.

Lemma asked_turns_events cs : forall s,
  asked (turns_events s cs) = t_question <$> cs.
Proof.
  induction cs as [|c rest IH]; intros s; [done|].
  simpl. unfold asked in *. simpl. by rewrite IH.
Qed.

Lemma after_turns cs : forall s,
  foldl after_turn s cs =
    {| candidate_name := candidate_name s;
       job_description := job_description s;
       analyzed_requirements := analyzed_requirements s;
       generated_questions := generated_questions s ++ (t_question <$> cs);
       evaluations := evaluations s ++ (turn_entry <$> cs);
       final_recommendation := final_recommendation s |}.
Proof.
  induction cs as [|c rest IH]; intros s.
  - simpl. rewrite !app_nil_r. by destruct s.
  - simpl. rewrite IH. simpl. by rewrite <- !app_assoc.
Qed.

Section Turns.

Context {W : Type} `{Collaborators W}.

Lemma interview_cycle_ok skill (m m' : machine W) :
  interview_cycle skill m = (Ok tt, m') ->
  exists c,
    session m' = after_turn (session m) c
    /\ trace m' = trace m ++ turn_events (session m) c
    /\ q_focus_area (t_qargs c) = skill
    /\ answered c.
Proof.
  unfold interview_cycle, bind. rewrite generate_question_run.
  destruct (q_args (session m) skill) as [qargs|e] eqn:Eq; [|done].
  destruct (q_agent qargs (world m)) as [[question|e] w1] eqn:Ea; [|done]. simpl.
  unfold invoke at 1. simpl.
  destruct (input "Your Answer: " w1) as [[answer|e] w2] eqn:Ei; [|done].
  rewrite evaluate_answer_run. simpl.
  destruct (eval_args _ question answer) as [eargs|e] eqn:Ee; [|done].
  destruct (eval_agent eargs w2) as [[result|e] w3] eqn:Ev; [|done]. simpl.
  destruct (subscript result "score") as [score|e] eqn:Es; [|done].
  destruct (subscript result "reasoning") as [reasoning|e] eqn:Er; [|done].
  unfold lift, ret. rewrite Es. intros [= <-].
  exists {| t_qargs := qargs; t_question := question; t_answer := answer;
            t_eargs := eargs; t_result := result; t_score := score;
            t_reasoning := reasoning |}.
  simpl. split; [done|]. split; [by rewrite <- !app_assoc|].
  split.
  { unfold q_args in Eq.
    repeat match type of Eq with
           | obind ?o _ = _ => destruct o; simpl in Eq; [|done]
           end.
    by injection Eq as <-. }
  unfold eval_args in Ee. simpl in Ee.
  destruct (dict_get _ "technical_skills" JNull); simpl in Ee; [|done].
  injection Ee as <-.
  unfold answered. simpl. eauto 15.
Qed.

Lemma for_each_ok topics : forall (m m' : machine W),
  for_each topics interview_cycle m = (Ok tt, m') ->
  exists cs,
    length cs = length topics
    /\ session m' = foldl after_turn (session m) cs
    /\ trace m' = trace m ++ turns_events (session m) cs
    /\ (q_focus_area ∘ t_qargs) <$> cs = topics
    /\ Forall answered cs.
Proof.
  induction topics as [|skill rest IH]; intros m m'; simpl.
  - intros [= <-]. exists []. by rewrite app_nil_r.
  - unfold bind.
    destruct (interview_cycle skill m) as [[[]|e] m1] eqn:E1; [|done].
    intros E2.
    destruct (interview_cycle_ok _ _ _ E1) as (c & Hs1 & Ht1 & Hc & Ha).
    destruct (IH _ _ E2) as (cs & Hlen & Hs & Ht & Hcs & Has).
    exists (c :: cs).
    split; [simpl; by rewrite Hlen|]. split; [simpl; by rewrite Hs, Hs1|].
    split; [simpl; by rewrite Ht, Ht1, Hs1, <- app_assoc|].
    split; [by rewrite <- Hc, <- Hcs|]. by constructor.
Qed.

(** Whatever its outcome, a turn makes its calls in order: question, answer,
    evaluation, and stops at the first that fails. *)
Lemma interview_cycle_kinds skill (m : machine W) :
  exists t,
    trace (interview_cycle skill m).2 = trace m ++ t
    /\ kinds t `prefix_of` cycle_kinds
    /\ ((interview_cycle skill m).1 = Ok tt -> kinds t = cycle_kinds).
Proof.
  destruct (interview_cycle skill m) as [[[]|e] m'] eqn:E.
  - destruct (interview_cycle_ok _ _ _ E) as (c & _ & Ht & _).
    exists (turn_events (session m) c). by repeat split.
  - revert E. unfold interview_cycle, bind. rewrite generate_question_run.
    destruct (q_args (session m) skill) as [qargs|e1].
    2:{ intros [= <- <-]. exists []. rewrite app_nil_r. repeat split; [|done].
        apply prefix_nil. }
    destruct (q_agent qargs (world m)) as [[question|e1] w1]; simpl.
    2:{ intros [= <- <-]. eexists. split; [done|]. split; [by eexists|done]. }
    unfold invoke at 1. simpl.
    destruct (input "Your Answer: " w1) as [[answer|e1] w2].
    2:{ intros [= <- <-]. simpl. rewrite <- app_assoc.
        eexists. split; [done|]. split; [by eexists|done]. }
    rewrite evaluate_answer_run. simpl.
    destruct (eval_args _ question answer) as [eargs|e1].
    2:{ intros [= <- <-]. simpl. rewrite <- app_assoc.
        eexists. split; [done|]. split; [by eexists|done]. }
    destruct (eval_agent eargs w2) as [[result|e1] w3]; simpl.
    2:{ intros [= <- <-]. simpl. rewrite <- !app_assoc.
        eexists. split; [done|]. split; [by eexists|done]. }
    destruct (subscript result "score") as [score|e1] eqn:Es.
    2:{ intros [= <- <-]. simpl. rewrite <- !app_assoc.
        eexists. split; [done|]. split; [by eexists|done]. }
    destruct (subscript result "reasoning") as [reasoning|e1].
    2:{ intros [= <- <-]. simpl. rewrite <- !app_assoc.
        eexists. split; [done|]. split; [by eexists|done]. }
    unfold lift, ret. by rewrite Es.
Qed.

Lemma for_each_kinds topics : forall (m : machine W),
  exists t,
    trace (for_each topics interview_cycle m).2 = trace m ++ t
    /\ kinds t `prefix_of` mjoin (replicate (length topics) cycle_kinds)
    /\ ((for_each topics interview_cycle m).1 = Ok tt ->
        kinds t = mjoin (replicate (length topics) cycle_kinds)).
Proof.
  induction topics as [|skill rest IH]; intros m; simpl.
  - exists []. by rewrite app_nil_r.
  - unfold bind.
    destruct (interview_cycle_kinds skill m) as (t1 & Ht1 & Hp1 & Hk1).
    destruct (interview_cycle skill m) as [[[]|e] m1]; simpl in *.
    + destruct (IH m1) as (t2 & Ht2 & Hp2 & Hk2).
      exists (t1 ++ t2). rewrite Ht2, Ht1, <- app_assoc.
      unfold kinds in *. rewrite fmap_app, (Hk1 eq_refl).
      split; [done|]. split; [exact (prefix_app cycle_kinds _ _ Hp2)|].
      intros Hok. by rewrite (Hk2 Hok).
    + exists t1. split; [done|].
      split; [exact (prefix_app_r _ cycle_kinds _ Hp1)|done].
Qed.

End Turns.

(** ** The orchestrator *)

Section Orchestrator.

Context {W : Type} `{Collaborators W}.

(** A run that returns went through extraction, some completed turns over
    the first two technical skills at most, and the recommendation. *)
Lemma run_interview_ok jd_text name (w : W) m' :
  run_interview jd_text name w = (Ok tt, m') ->
  exists v w1 techs topics cs args decision,
    jd_agent jd_text w = (Ok v, w1)
    /\ dict_get v "technical_skills" (JList []) = Ok techs
    /\ (let? skills := slice_to 2 techs in py_iter skills) = Ok topics
    /\ length cs = length topics
    /\ (q_focus_area ∘ t_qargs) <$> cs = topics
    /\ session m' =
         store_recommendation decision
           (foldl after_turn (store_requirements v (new_InterviewState name jd_text)) cs)
    /\ trace m' =
         (new_InterviewState name jd_text, JdCall jd_text (Ok v))
         :: turns_events (store_requirements v (new_InterviewState name jd_text)) cs
         ++ [(foldl after_turn (store_requirements v (new_InterviewState name jd_text)) cs,
              RecCall args (Ok decision))]
    /\ Forall answered cs
    /\ (exists w2 w3, rec_agent args w2 = (Ok decision, w3)).
Proof.
  unfold run_interview. rewrite interview_run, analyze_jd_run. simpl.
  destruct (jd_agent jd_text w) as [[v|e] w1]; [|done]. simpl.
  destruct (subscript v "role_title"); [|done]. simpl.
  unfold topics_of. simpl.
  destruct (dict_get v "technical_skills" (JList [])) as [techs|e] eqn:Eg; [|done].
  simpl.
  destruct (let? skills := slice_to 2 techs in py_iter skills) as [topics|e] eqn:Et;
    [|done].
  destruct (for_each topics interview_cycle _) as [[[]|e] m2] eqn:E2; [|done].
  destruct (for_each_ok _ _ _ E2) as (cs & Hlen & Hs & Ht & Hcs & Has).
  simpl in Hs, Ht.
  rewrite generate_final_decision_run.
  destruct (rec_args (session m2)) as [args|e]; [|done].
  destruct (rec_agent args (world m2)) as [[decision|e] w3] eqn:Erec; [|done].
  intros [= <-]. exists v, w1, techs, topics, cs, args, decision. simpl.
  rewrite Hs, Ht. repeat split; try done. eauto.
Qed.

(** C1: the calls of a run come in the order extraction, then question,
    answer and evaluation in turns, then recommendation.  The number of
    turns never exceeds the smaller of 2, the cap written in the
    orchestrator, and the number of technical skills extracted; in a run
    that returns it is exactly that number, which is then also the number of
    questions and of evaluations in the final session. *)
Theorem cycles_are_capped jd_text name (w : W) v w1 skills :
  jd_agent jd_text w = (Ok v, w1) ->
  dict_get v "technical_skills" (JList []) = Ok (JList skills) ->
  let run := run_interview jd_text name w in
  let pattern :=
    Extraction :: mjoin (replicate (2 `min` length skills) cycle_kinds) ++ [Recommendation] in
  kinds (trace run.2) `prefix_of` pattern
  /\ (run.1 = Ok tt ->
      kinds (trace run.2) = pattern
      /\ length (generated_questions (session run.2)) = 2 `min` length skills
      /\ length (evaluations (session run.2)) = 2 `min` length skills).
Proof.
  intros Hjd Hskills run pattern. split.
  - subst run. unfold run_interview. rewrite interview_run, analyze_jd_run. simpl.
    rewrite Hjd. simpl.
    assert ([Extraction] `prefix_of` pattern) as Hfirst by by eexists.
    destruct (subscript v "role_title"); simpl; [|done].
    unfold topics_of. simpl. rewrite Hskills. simpl.
    set (m1 := {| world := w1; session := _; trace := _ |}).
    destruct (for_each_kinds (take 2 skills) m1) as (t & Ht & Hp & Hk).
    rewrite length_take in Hp, Hk.
    destruct (for_each (take 2 skills) interview_cycle m1) as [[[]|e] m2];
      simpl in Ht |- *.
    2:{ rewrite Ht. apply (prefix_app [Extraction]), prefix_app_r, Hp. }
    rewrite generate_final_decision_run.
    destruct (rec_args (session m2)) as [args|e]; simpl.
    2:{ rewrite Ht. apply (prefix_app [Extraction]), prefix_app_r, Hp. }
    assert (kinds (trace m2 ++ [(session m2, RecCall args (rec_agent args (world m2)).1)])
            = pattern) as Hfull.
    { rewrite Ht. unfold kinds in *. rewrite fmap_app, fmap_cons, (Hk eq_refl).
      done. }
    destruct (rec_agent args (world m2)) as [[decision|e] w3]; simpl in *;
      by rewrite Hfull.
  - intros Hok. destruct run as [r m'] eqn:Hrun. simpl in Hok. subst r.
    destruct (run_interview_ok _ _ _ _ Hrun)
      as (v' & w1' & techs & topics & cs & args & decision
          & Hjd' & Htechs & Htopics & Hlen & _ & Hs & Ht & _).
    rewrite Hjd in Hjd'. injection Hjd' as <- <-.
    rewrite Hskills in Htechs. injection Htechs as <-.
    simpl in Htopics. injection Htopics as <-.
    rewrite length_take in Hlen. simpl.
    rewrite Hs, Ht, after_turns. simpl.
    rewrite !length_fmap, Hlen. split; [|done].
    unfold pattern, kinds. rewrite fmap_app. simpl. f_equal.
    fold (kinds (turns_events (store_requirements v (new_InterviewState name jd_text)) cs)).
    by rewrite kinds_turns_events, Hlen.
Qed.

Lemma turns_aligned cs :
  Forall2 (fun q entry => subscript entry "question" = Ok (JStr q))
          (t_question <$> cs) (turn_entry <$> cs).
Proof.
  apply Forall2_fmap, Forall_Forall2_diag, Forall_forall. by intros c _.
Qed.

(** C2: [N] completed turns of the loop add exactly [N] entries to the
    evaluation log and [N] answered questions to the trace, and keep the log
    aligned with the questions: the question field of the entry at index [i]
    is the text the question chain answered in turn [i].  A run starts with
    both empty, so this holds of the session of every run that returns. *)
Theorem evaluations_follow_questions :
  (forall topics (m m' : machine W),
     aligned m ->
     for_each topics interview_cycle m = (Ok tt, m') ->
     aligned m'
     /\ length (evaluations (session m')) = length (evaluations (session m)) + length topics
     /\ length (asked (trace m')) = length (asked (trace m)) + length topics)
  /\ (forall jd_text name (w : W) m',
     run_interview jd_text name w = (Ok tt, m') ->
     aligned m'
     /\ asked (trace m') = generated_questions (session m')
     /\ forall i q, asked (trace m') !! i = Some q ->
          exists entry, evaluations (session m') !! i = Some entry
                        /\ subscript entry "question" = Ok (JStr q)).
Proof.
  split.
  - intros topics m m' Hal Hrun.
    destruct (for_each_ok _ _ _ Hrun) as (cs & Hlen & Hs & Ht & _ & _).
    unfold aligned. rewrite Hs, Ht, after_turns. simpl.
    unfold asked. rewrite omap_app. fold (asked (trace m)).
    fold (asked (turns_events (session m) cs)). rewrite asked_turns_events.
    rewrite !length_app, !length_fmap, Hlen.
    split; [|done]. apply Forall2_app; [done|apply turns_aligned].
  - intros jd_text name w m' Hrun.
    destruct (run_interview_ok _ _ _ _ Hrun)
      as (v & w1 & techs & topics & cs & args & decision
          & _ & _ & _ & _ & _ & Hs & Ht & _).
    assert (asked (trace m') = t_question <$> cs) as Hasked.
    { rewrite Ht. unfold asked. simpl. rewrite omap_app. simpl.
      rewrite app_nil_r.
      fold (asked (turns_events (store_requirements v (new_InterviewState name jd_text)) cs)).
      apply asked_turns_events. }
    assert (evaluations (session m') = turn_entry <$> cs) as Hevals.
    { rewrite Hs, after_turns. done. }
    assert (aligned m') as Hal.
    { unfold aligned. rewrite Hasked, Hevals. apply turns_aligned. }
    split; [done|]. split.
    + rewrite Hasked, Hs, after_turns. done.
    + intros i q Hq.
      destruct (Forall2_lookup_l _ _ _ _ _ Hal Hq) as (entry & He & Hsub). eauto.
Qed.

End Orchestrator.

(** ** Requirements before questions *)

#[global] Instance keeps_requirements_preorder : PreOrder keeps_requirements.
Proof. unfold keeps_requirements. split; [done|]. intros s1 s2 s3. congruence. Qed.

Section Requirements.

Context {W : Type} `{Collaborators W}.

(** C5: the first call of a run is the extraction.  Whenever the question
    chain is called, the session's requirements are not the empty default:
    they are the object the extraction chain answered, and they stay so to
    the end of the run.  When that object has exactly the four fields of the
    schema, so have the requirements of the session at every question call
    and at the end. *)
Theorem requirements_precede_questions jd_text name (w : W) :
  let m' := (run_interview jd_text name w).2 in
  (exists rest,
     trace m' = (new_InterviewState name jd_text, JdCall jd_text (jd_agent jd_text w).1) :: rest)
  /\ (forall s args r, (s, QCall args r) ∈ trace m' ->
        analyzed_requirements s <> JDict []
        /\ (jd_agent jd_text w).1 = Ok (analyzed_requirements s)
        /\ analyzed_requirements (session m') = analyzed_requirements s)
  /\ (forall v, (jd_agent jd_text w).1 = Ok v -> four_fields v = true ->
        four_fields (analyzed_requirements (session m')) = true
        /\ forall s args r, (s, QCall args r) ∈ trace m' ->
             four_fields (analyzed_requirements s) = true).
Proof.
  intros m'. subst m'.
  set (claim := fun (r : outcome json) (m' : machine W) =>
    (exists rest, trace m' = (new_InterviewState name jd_text, JdCall jd_text r) :: rest)
    /\ (forall s args r', (s, QCall args r') ∈ trace m' ->
          analyzed_requirements s <> JDict []
          /\ r = Ok (analyzed_requirements s)
          /\ analyzed_requirements (session m') = analyzed_requirements s)
    /\ (forall v, r = Ok v -> four_fields v = true ->
          four_fields (analyzed_requirements (session m')) = true
          /\ forall s args r', (s, QCall args r') ∈ trace m' ->
               four_fields (analyzed_requirements s) = true)).
  change (claim (jd_agent jd_text w).1 (run_interview jd_text name w).2).
  unfold run_interview. rewrite interview_run, analyze_jd_run.
  change (session (boot jd_text name w)) with (new_InterviewState name jd_text).
  change (job_description (new_InterviewState name jd_text)) with jd_text.
  change (world (boot jd_text name w)) with w.
  change (trace (boot jd_text name w)) with (@nil (InterviewState * event)).
  destruct (jd_agent jd_text w) as [[v|e] w1]; cbv beta iota zeta.
  2:{ split; [by eexists|]. split.
      - intros s args r Hin. apply list_elem_of_singleton in Hin. done.
      - intros v [=]. }
  set (s1 := store_requirements v (new_InterviewState name jd_text)).
  set (ev := (new_InterviewState name jd_text, JdCall jd_text (Ok v))).
  set (m1 := {| world := w1; session := s1; trace := [] ++ [ev] |}).
  assert (forall (m' : machine W),
            advances keeps_requirements (fun _ => True) m1 m' ->
            v <> JDict [] \/ trace m' = [ev] ->
            claim (Ok v) m') as Hfin.
  { intros m' (t & Ht & HR & Hall) Hv.
    assert (forall s args r, (s, QCall args r) ∈ trace m' ->
              analyzed_requirements s = v) as Hq.
    { intros s args r Hin. rewrite Ht in Hin. simpl in Hin.
      apply elem_of_cons in Hin as [Hin|Hin]; [done|].
      rewrite Forall_forall in Hall. by destruct (Hall _ Hin) as (Hs & _). }
    split; [by exists t|]. split.
    - intros s args r Hin. rewrite (Hq _ _ _ Hin), HR.
      split; [|done]. destruct Hv as [Hv|Hv]; [done|].
      rewrite Hv in Hin. apply list_elem_of_singleton in Hin. done.
    - intros v' [= <-] Hfour. rewrite HR. split; [done|].
      intros s args r Hin. by rewrite (Hq _ _ _ Hin). }
  assert (advances keeps_requirements (fun _ => True) m1 m1) as Hrefl
    by apply advances_refl, _.
  destruct (subscript v "role_title") as [role|e] eqn:Erole; cbv beta iota zeta.
  2:{ apply (Hfin m1); [done|by right]. }
  assert (v <> JDict []) as Hv by (by intros ->).
  change (session m1) with s1.
  destruct (topics_of s1) as [topics|e].
  2:{ apply (Hfin m1); [done|by left]. }
  apply Hfin; [|by left].
  apply loop_and_decision_advance; [apply _|..]; intros; exact eq_refl || exact I.
Qed.

End Requirements.

(** ** Runs that return

    With collaborators that always answer, and an extraction that conforms
    to the schema, the orchestrator runs to its end. *)

Section Progress.

Context {W : Type} `{Collaborators W}.

Lemma all_str_ok l : forallb is_str l = true -> exists ss, all_str l = Ok ss.
Proof.
  induction l as [|x l IH]; simpl; [by eexists|].
  destruct x; try done. simpl. intros Hl.
  destruct (IH Hl) as [ss ->]. by eexists.
Qed.

Lemma JobAnalysis_inv v :
  JobAnalysis v = true ->
  exists d role techs,
    v = JDict d
    /\ lookup_key "role_title" d = Some role
    /\ lookup_key "technical_skills" d = Some (JList techs)
    /\ forallb is_str techs = true.
Proof.
  unfold JobAnalysis, has_field. destruct v as [| | | | | |d]; try done.
  destruct (lookup_key "role_title" d) as [role|] eqn:Er; [|done].
  destruct (lookup_key "technical_skills" d) as [[| | | | |techs|]|] eqn:Et;
    simpl; rewrite ?andb_false_r; try done.
  intros Hv. exists d, role, techs.
  repeat match goal with
         | Hand : _ && _ = true |- _ => apply andb_prop in Hand as [? ?]
         end.
  by repeat split.
Qed.

Lemma q_args_ok v s topic :
  JobAnalysis v = true -> analyzed_requirements s = v ->
  exists args, q_args s topic = Ok args.
Proof.
  intros Hv Hs. destruct (JobAnalysis_inv v Hv) as (d & role & techs & -> & Hr & Ht & Hall).
  unfold q_args, str_join. rewrite Hs. simpl. rewrite Ht. simpl.
  destruct (all_str_ok _ Hall) as [ss ->]. simpl. by eexists.
Qed.

Lemma eval_summary_loop_ok entries : forall acc,
  summarisable entries -> exists text, eval_summary_loop acc entries = Ok text.
Proof.
  induction entries as [|entry rest IH]; intros acc Hall; simpl; [by eexists|].
  apply Forall_cons in Hall as [[block ->] Hrest]. simpl. by apply IH.
Qed.

Lemma interview_cycle_completes v skill (m : machine W) :
  JobAnalysis v = true -> cooperative -> ready v m ->
  exists m', interview_cycle skill m = (Ok tt, m') /\ ready v m'.
Proof.
  intros Hv (Hq & Hin & Hev & _) [Hreq Hlog].
  destruct (q_args_ok v (session m) skill Hv Hreq) as [qargs Eq].
  destruct (JobAnalysis_inv v Hv) as (d & _ & _ & Hd & _).
  destruct (Hq qargs (world m)) as (q & w1 & Ea).
  destruct (Hin "Your Answer: " w1) as (a & w2 & Ei).
  set (eargs := {| ev_question := q; ev_answer := a;
                   ev_skills := default JNull (lookup_key "technical_skills" d) |}).
  destruct (Hev eargs w2) as (result & w3 & score & reasoning & Ee & Es & Er).
  unfold interview_cycle, bind.
  rewrite generate_question_run, Eq, Ea. simpl.
  unfold invoke at 1. simpl. rewrite Ei.
  rewrite evaluate_answer_run. unfold eval_args. simpl.
  rewrite Hreq, Hd. simpl. fold eargs. rewrite Ee. simpl. rewrite Es, Er.
  unfold lift, ret. rewrite Es.
  eexists. split; [done|]. split; [by rewrite <- Hd|]. simpl.
  apply Forall_app. split; [done|]. apply Forall_singleton. by eexists.
Qed.

Lemma generate_final_decision_completes v (m : machine W) :
  JobAnalysis v = true -> cooperative -> ready v m ->
  exists d m', generate_final_decision m = (Ok d, m').
Proof.
  intros Hv (_ & _ & _ & Hrec) [Hreq Hlog].
  destruct (JobAnalysis_inv v Hv) as (d & _ & _ & Hd & _).
  rewrite generate_final_decision_run. unfold rec_args.
  destruct (eval_summary_loop_ok _ "" Hlog) as [text ->]. rewrite Hreq, Hd. simpl.
  match goal with
  | |- context [rec_agent ?args ?w] => destruct (Hrec args w) as (dec & w' & ->)
  end.
  by do 2 eexists.
Qed.

(** A conforming extraction and answering collaborators: the run returns. *)
Lemma run_interview_completes jd_text name (w : W) v w1 :
  jd_agent jd_text w = (Ok v, w1) ->
  JobAnalysis v = true ->
  cooperative ->
  (run_interview jd_text name w).1 = Ok tt.
Proof.
  intros Hjd Hv Hco.
  destruct (JobAnalysis_inv v Hv) as (d & role & techs & -> & Hr & Ht & _).
  unfold run_interview. rewrite interview_run, analyze_jd_run. simpl.
  rewrite Hjd. simpl. rewrite Hr. simpl.
  unfold topics_of. simpl. rewrite Ht. simpl.
  set (m1 := {| world := w1; session := _; trace := _ |}).
  assert (post (for_each (take 2 techs) interview_cycle) m1
            (fun r m' => r = Ok tt /\ ready (JDict d) m')) as Hloop.
  { apply (post_for_each (fun _ => ready (JDict d))).
    - split; [done|constructor].
    - intros n x m2 _ Hready.
      destruct (interview_cycle_completes _ x m2 Hv Hco Hready) as (m3 & E & ?).
      unfold post. by rewrite E.
    - done. }
  unfold post in Hloop.
  destruct (for_each (take 2 techs) interview_cycle m1) as [r m2].
  simpl in Hloop. destruct Hloop as [-> Hready].
  destruct (generate_final_decision_completes _ m2 Hv Hco Hready) as (dec & m3 & ->).
  done.
Qed.

End Progress.

(** ** Scenarios *)

Section Scenarios.

Context {W : Type} `{Collaborators W}.

(** C3: with collaborators that answer the senior Python requirements for
    the extraction, the text [qtext topic] for the question on [topic], the
    score 7 with reasoning "ok" for every evaluation and "HIRE" for the
    recommendation, and a candidate who answers every question, the run
    returns; its session holds exactly two evaluations, the first with the
    Django question and the second with the Azure question, each with the
    answer the candidate gave, the score 7 and the reasoning "ok", and its
    recommendation is "HIRE". *)
Theorem senior_python_scenario jd_text name (w : W) (qtext : json -> string) :
  (forall jd w0, (jd_agent jd w0).1 = Ok Scripted.senior_python) ->
  (forall args w0, (q_agent args w0).1 = Ok (qtext (q_focus_area args))) ->
  (forall args w0, (eval_agent args w0).1 = Ok Scripted.seven_ok) ->
  (forall args w0, (rec_agent args w0).1 = Ok "HIRE") ->
  (forall prompt w0, exists a, (input prompt w0).1 = Ok a) ->
  exists a1 a2,
    (run_interview jd_text name w).1 = Ok tt
    /\ evaluations (session (run_interview jd_text name w).2)
       = [ JDict [("question", JStr (qtext (JStr "Django"))); ("answer", JStr a1);
                  ("score", JInt 7); ("reasoning", JStr "ok")];
           JDict [("question", JStr (qtext (JStr "Azure"))); ("answer", JStr a2);
                  ("score", JInt 7); ("reasoning", JStr "ok")] ]
    /\ final_recommendation (session (run_interview jd_text name w).2) = Some "HIRE".
Proof.
  intros Hjd Hq Hev Hrec Hin.
  assert (cooperative) as Hco.
  { repeat split.
    - intros args w0. specialize (Hq args w0).
      destruct (q_agent args w0) as [r w']. simpl in Hq. subst r. eauto.
    - intros prompt w0. destruct (Hin prompt w0) as [a Ha].
      destruct (input prompt w0) as [r w']. simpl in Ha. subst r. eauto.
    - intros args w0. specialize (Hev args w0).
      destruct (eval_agent args w0) as [r w']. simpl in Hev. subst r.
      exists Scripted.seven_ok, w', (JInt 7), (JStr "ok"). done.
    - intros args w0. specialize (Hrec args w0).
      destruct (rec_agent args w0) as [r w']. simpl in Hrec. subst r. eauto. }
  assert (exists w1, jd_agent jd_text w = (Ok Scripted.senior_python, w1)) as [w1 Ejd].
  { specialize (Hjd jd_text w). destruct (jd_agent jd_text w) as [r w1].
    simpl in Hjd. subst r. eauto. }
  pose proof (run_interview_completes jd_text name w _ w1 Ejd eq_refl Hco) as Hok.
  destruct (run_interview jd_text name w) as [r m'] eqn:Erun. simpl in Hok. subst r.
  destruct (run_interview_ok _ _ _ _ Erun)
    as (v & w1' & techs & topics & cs & args & decision
        & Hjd' & Htechs & Htopics & Hlen & Hcs & Hs & _ & Hans & (w2 & w3 & Hdec)).
  rewrite Ejd in Hjd'. injection Hjd' as <- <-.
  injection Htechs as <-. injection Htopics as <-.
  destruct cs as [|c1 [|c2 [|c3 cs]]]; try done.
  injection Hcs as Hc1 Hc2.
  apply Forall_cons in Hans as [A1 Hans]. apply Forall_cons in Hans as [A2 _].
  assert (forall c, answered c ->
            turn_entry c = evaluation_entry (qtext (q_focus_area (t_qargs c)))
                                            (t_answer c) (JInt 7) (JStr "ok")) as Hentry.
  { intros c ((wq & wq' & Eq) & _ & (we & we' & Ee) & _ & _ & Es & Er).
    pose proof (Hq (t_qargs c) wq) as Hq1. rewrite Eq in Hq1. injection Hq1 as Hq1.
    pose proof (Hev (t_eargs c) we) as He1. rewrite Ee in He1. injection He1 as He1.
    rewrite He1 in Es, Er. injection Es as Es. injection Er as Er.
    unfold turn_entry. by rewrite Hq1, <- Es, <- Er. }
  exists (t_answer c1), (t_answer c2). simpl.
  split; [done|]. rewrite Hs, after_turns. simpl.
  rewrite (Hentry c1 A1), (Hentry c2 A2), Hc1, Hc2. split; [done|].
  pose proof (Hrec args w2) as Hd. rewrite Hdec in Hd. by injection Hd as ->.
Qed.

(** C10: an extraction that is an object with a role title, and with no
    technical skills or an empty list of them, is accepted by [analyze_jd];
    the loop makes no turn, the last chain is called with an empty summary,
    and the run ends with an empty evaluation log and the recommendation the
    chain answered. *)
Theorem no_skills_no_turns jd_text name (w : W) d role w1 decision w2 :
  jd_agent jd_text w = (Ok (JDict d), w1) ->
  lookup_key "role_title" d = Some role ->
  lookup_key "technical_skills" d = None
    \/ lookup_key "technical_skills" d = Some (JList []) ->
  rec_agent {| rec_name := name; rec_role := role; rec_evaluations := "" |} w1
    = (Ok decision, w2) ->
  let s0 := new_InterviewState name jd_text in
  let s1 := store_requirements (JDict d) s0 in
  analyze_jd (boot jd_text name w)
    = (Ok tt, {| world := w1; session := s1;
                 trace := [(s0, JdCall jd_text (Ok (JDict d)))] |})
  /\ run_interview jd_text name w
     = (Ok tt,
        {| world := w2;
           session := store_recommendation decision s1;
           trace := [ (s0, JdCall jd_text (Ok (JDict d)));
                      (s1, RecCall {| rec_name := name; rec_role := role;
                                      rec_evaluations := "" |} (Ok decision)) ] |})
  /\ evaluations (session (run_interview jd_text name w).2) = []
  /\ final_recommendation (session (run_interview jd_text name w).2) = Some decision.
Proof.
  intros Hjd Hrole Hskills Hrec s0 s1.
  assert (analyze_jd (boot jd_text name w)
    = (Ok tt, {| world := w1; session := s1;
                 trace := [(s0, JdCall jd_text (Ok (JDict d)))] |})) as Ha.
  { rewrite analyze_jd_run. simpl. rewrite Hjd. simpl. by rewrite Hrole. }
  assert (topics_of s1 = Ok []) as Ht.
  { unfold topics_of. simpl. by destruct Hskills as [-> | ->]. }
  assert (run_interview jd_text name w
     = (Ok tt,
        {| world := w2;
           session := store_recommendation decision s1;
           trace := [ (s0, JdCall jd_text (Ok (JDict d)));
                      (s1, RecCall {| rec_name := name; rec_role := role;
                                      rec_evaluations := "" |} (Ok decision)) ] |}))
    as Hrun.
  { unfold run_interview. rewrite interview_run, Ha. simpl. rewrite Ht. simpl.
    rewrite generate_final_decision_run. unfold rec_args. simpl.
    rewrite Hrole. simpl. by rewrite Hrec. }
  split; [done|]. split; [done|]. by rewrite Hrun.
Qed.

(** C4, as the code has it: when the extraction chain raises, or answers a
    value that is not an object with a role title, [analyze_jd] raises; the
    exception of the chain is the one raised; it leaves [run_interview], and
    the only call of the run is that one extraction call: no second attempt,
    no question.  (An object with a role title is accepted whatever other
    fields it lacks.) *)
Theorem failed_extraction_is_fatal jd_text name (w : W) r w1 :
  jd_agent jd_text w = (r, w1) ->
  (forall v, r = Ok v -> exists e, subscript v "role_title" = Raise e) ->
  exists e,
    (analyze_jd (boot jd_text name w)).1 = Raise e
    /\ (forall e0, r = Raise e0 -> e = e0)
    /\ (run_interview jd_text name w).1 = Raise e
    /\ trace (run_interview jd_text name w).2
       = [(new_InterviewState name jd_text, JdCall jd_text r)].
Proof.
  intros Hjd Hbad. unfold run_interview.
  rewrite interview_run, analyze_jd_run. simpl. rewrite Hjd.
  destruct r as [v|e]; simpl.
  - destruct (Hbad v eq_refl) as [e ->]. simpl. exists e. by repeat split.
  - exists e. repeat split; try done. by intros e0 [= ->].
Qed.

End Scenarios.

(** ** The properties on the scripted collaborators *)

(** Five skills extracted, two turns made. *)
Lemma cycles_are_capped_witness :
  let run := run_interview (H := Scripted.after (Ok Scripted.python_five))
               "Python, five skills" "Alex Developer" ["a1"; "a2"] in
  kinds (trace run.2)
    = [Extraction; Question; Answer; Evaluation; Question; Answer; Evaluation;
       Recommendation]
  /\ length (generated_questions (session run.2)) = 2
  /\ length (evaluations (session run.2)) = 2.
Proof.
  intros run.
  exact (proj2 (cycles_are_capped (H := Scripted.after (Ok Scripted.python_five))
                  "Python, five skills" "Alex Developer" ["a1"; "a2"]
                  Scripted.python_five ["a1"; "a2"] Scripted.five_skills
                  eq_refl eq_refl)
               eq_refl).
Defined.

Lemma evaluations_follow_questions_witness :
  aligned (run_interview (H := Scripted.after (Ok Scripted.senior_python))
             "Senior Python Developer, skills: Django, Azure" "Alex Developer"
             ["a1"; "a2"]).2.
Proof.
  apply (proj2 (evaluations_follow_questions (H := Scripted.after (Ok Scripted.senior_python)))
           "Senior Python Developer, skills: Django, Azure" "Alex Developer"
           ["a1"; "a2"]).
  reflexivity.
Defined.

Lemma senior_python_scenario_witness :
  let run := run_interview (H := Scripted.talkative)
               "Senior Python Developer, skills: Django, Azure" "Alex Developer" 0 in
  exists a1 a2,
    run.1 = Ok tt
    /\ evaluations (session run.2)
       = [ JDict [("question", JStr "Tell me about Django"); ("answer", JStr a1);
                  ("score", JInt 7); ("reasoning", JStr "ok")];
           JDict [("question", JStr "Tell me about Azure"); ("answer", JStr a2);
                  ("score", JInt 7); ("reasoning", JStr "ok")] ]
    /\ final_recommendation (session run.2) = Some "HIRE".
Proof.
  intros run.
  apply (senior_python_scenario (H := Scripted.talkative)
           "Senior Python Developer, skills: Django, Azure" "Alex Developer" 0
           Scripted.about).
  - intros jd w0. reflexivity.
  - intros args w0. reflexivity.
  - intros args w0. reflexivity.
  - intros args w0. reflexivity.
  - intros prompt w0. exists "It depends.". reflexivity.
Defined.

(** An extraction chain that raises: one call, one exception. *)
Lemma failed_extraction_is_fatal_witness :
  exists e,
    (analyze_jd (H := Scripted.after (Raise OutputParserException))
       (boot "not a job description" "Alex Developer" ["a1"])).1 = Raise e
    /\ (forall e0, @Raise json OutputParserException = Raise e0 -> e = e0)
    /\ (run_interview (H := Scripted.after (Raise OutputParserException))
          "not a job description" "Alex Developer" ["a1"]).1 = Raise e
    /\ trace (run_interview (H := Scripted.after (Raise OutputParserException))
                "not a job description" "Alex Developer" ["a1"]).2
       = [(new_InterviewState "Alex Developer" "not a job description",
           JdCall "not a job description" (Raise OutputParserException))].
Proof.
  apply (failed_extraction_is_fatal (H := Scripted.after (Raise OutputParserException))
           "not a job description" "Alex Developer" ["a1"]
           (Raise OutputParserException) ["a1"]).
  - reflexivity.
  - intros v Hv. discriminate Hv.
Defined.

(** C4 as stated fails: an object with a role title and one skill has neither
    soft skills nor a seniority level, so it is not the four-field structure,
    yet [analyze_jd] returns and the run goes on to ask a question. *)
Lemma partial_extraction_is_accepted :
  JobAnalysis Scripted.role_and_skill = false
  /\ (analyze_jd (H := Scripted.after (Ok Scripted.role_and_skill))
        (boot "Engineer wanted" "Alex Developer" ["a1"])).1 = Ok tt
  /\ asked (trace (run_interview (H := Scripted.after (Ok Scripted.role_and_skill))
                     "Engineer wanted" "Alex Developer" ["a1"]).2)
     = ["Tell me about Django"].
Proof. repeat split; reflexivity. Qed.

Lemma requirements_precede_questions_witness :
  let s := store_requirements Scripted.senior_python
             (new_InterviewState "Alex Developer" "Senior Python Developer") in
  let run := run_interview (H := Scripted.after (Ok Scripted.senior_python))
               "Senior Python Developer" "Alex Developer" ["a1"; "a2"] in
  analyzed_requirements s <> JDict []
  /\ (jd_agent (Collaborators := Scripted.after (Ok Scripted.senior_python))
        "Senior Python Developer" ["a1"; "a2"]).1 = Ok (analyzed_requirements s)
  /\ analyzed_requirements (session run.2) = analyzed_requirements s.
Proof.
  intros s run.
  assert (exists args r, trace run.2 !! 1 = Some (s, QCall args r)) as (args & r & Hin).
  { vm_compute. by do 2 eexists. }
  exact (proj1 (proj2 (requirements_precede_questions
                         (H := Scripted.after (Ok Scripted.senior_python))
                         "Senior Python Developer" "Alex Developer" ["a1"; "a2"]))
           s args r (list_elem_of_lookup_2 _ 1 _ Hin)).
Defined.

(** The same question a second time is stored a second time. *)
Lemma generate_question_appends_witness :
  generated_questions
    (session (generate_question (H := Scripted.repetitive) (JStr "Django")
                Scripted.resumed).2)
  = ["Why Python?"; "Why Python?"].
Proof.
  exact (proj2 (generate_question_appends (H := Scripted.repetitive)
                  (JStr "Django") Scripted.resumed _ "Why Python?" ["Because."]
                  eq_refl eq_refl)).
Defined.

(** A score of 42 is stored as 42. *)
Lemma evaluate_answer_records_witness :
  evaluations
    (session (evaluate_answer (H := Scripted.repetitive) "Why Python?" "Because."
                Scripted.resumed).2)
  = [ evaluation_entry "Why Python?" "It is readable." (JInt 7) (JStr "ok");
      evaluation_entry "Why Python?" "Because." (JInt 42) (JStr "off the scale") ].
Proof.
  exact (proj2 (evaluate_answer_records (H := Scripted.repetitive)
                  "Why Python?" "Because." Scripted.resumed _ Scripted.forty_two
                  (JInt 42) (JStr "off the scale") ["Because."]
                  eq_refl eq_refl eq_refl eq_refl)).
Defined.


Lemma stages_keep_to_their_field_witness :
  let run := run_interview (H := Scripted.after (Ok Scripted.senior_python))
               "Senior Python Developer" "Alex Developer" ["a1"; "a2"] in
  let s := append_question "Tell me about Django"
             (store_requirements Scripted.senior_python
                (new_InterviewState "Alex Developer" "Senior Python Developer")) in
  candidate_name s = "Alex Developer"
  /\ job_description s = "Senior Python Developer"
  /\ generated_questions s `prefix_of` generated_questions (session run.2)
  /\ evaluations s `prefix_of` evaluations (session run.2).
Proof.
  intros run s.
  assert (exists e, trace run.2 !! 2 = Some (s, e)) as (e & Hin).
  { vm_compute. by eexists. }
  exact (proj2 (proj2
           (proj2 (proj2 (proj2 (proj2
              (stages_keep_to_their_field
                 (H := Scripted.after (Ok Scripted.senior_python))))))
              "Senior Python Developer" "Alex Developer" ["a1"; "a2"]))
           s e (list_elem_of_lookup_2 _ 2 _ Hin)).
Defined.

(** A role title and nothing else: no turn, and still a recommendation. *)
Lemma no_skills_no_turns_witness :
  let run := run_interview (H := Scripted.after (Ok (JDict Scripted.role_only)))
               "Engineer wanted" "Alex Developer" [] in
  kinds (trace run.2) = [Extraction; Recommendation]
  /\ evaluations (session run.2) = []
  /\ final_recommendation (session run.2) = Some "HIRE".
Proof.
  intros run.
  destruct (no_skills_no_turns (H := Scripted.after (Ok (JDict Scripted.role_only)))
              "Engineer wanted" "Alex Developer" [] Scripted.role_only
              (JStr "Engineer") [] "HIRE" []
              eq_refl eq_refl (or_introl eq_refl) eq_refl)
    as (_ & Hrun & Hevals & Hrec).
  subst run.
  split; [by rewrite Hrun|]. split; [exact Hevals|exact Hrec].
Defined.

(** * Further properties of the code *)

(** ** Start-up *)

Lemma py_not_true (v : option string) : py_not v = true <-> v = None \/ v = Some "".
Proof.
  destruct v as [s|]; simpl; [|by split; auto].
  rewrite String.eqb_eq. split.
  - intros ->. by right.
  - by intros [[=]|[= ->]].
Qed.

(** X1: loading the module exits, with status 1, exactly when the endpoint or
    the key is unset or set to the empty text.  Otherwise the client is built
    with the API version and the deployment of the environment: a variable
    that is set, even to the empty text, is taken as it is, and only an
    unset one takes its default. *)
Theorem load_module_exits_iff (environ : gmap string string) :
  (load_module environ = SystemExit 1
   <-> (environ !! "AZURE_OPENAI_ENDPOINT" = None
        \/ environ !! "AZURE_OPENAI_ENDPOINT" = Some "")
       \/ (environ !! "AZURE_OPENAI_API_KEY" = None
           \/ environ !! "AZURE_OPENAI_API_KEY" = Some ""))
  /\ (forall code, load_module environ = SystemExit code -> code = 1%Z)
  /\ (forall llm, load_module environ = Loaded llm ->
        (forall v, environ !! "AZURE_OPENAI_API_VERSION" = Some v -> api_version llm = v)
        /\ (environ !! "AZURE_OPENAI_API_VERSION" = None ->
            api_version llm = "2024-12-01-preview")
        /\ (forall v, environ !! "AZURE_OPENAI_CHAT_DEPLOYMENT_NAME" = Some v ->
            azure_deployment llm = v)
        /\ (environ !! "AZURE_OPENAI_CHAT_DEPLOYMENT_NAME" = None ->
            azure_deployment llm = "gpt-4o-mini")).
Proof.
  unfold load_module, getenv, getenv_default.
  destruct (py_not (environ !! "AZURE_OPENAI_ENDPOINT")
            || py_not (environ !! "AZURE_OPENAI_API_KEY")) eqn:E.
  - apply orb_true_iff in E. rewrite !py_not_true in E.
    split; [done|]. split; [by intros code [= <-]|]. intros llm [=].
  - apply orb_false_iff in E as [E1 E2].
    split; [|split].
    + split; [done|]. rewrite <- !py_not_true. rewrite E1, E2. by intros [|].
    + intros code [=].
    + intros llm [= <-]. simpl.
      repeat split; try (by intros v ->); by intros ->.
Qed.

Lemma load_module_exits_iff_witness :
  load_module Cases.empty_key = SystemExit 1
  /\ exists llm, load_module Cases.empty_version = Loaded llm /\ api_version llm = "".
Proof.
  split.
  - apply (proj1 (load_module_exits_iff Cases.empty_key)). right. right. reflexivity.
  - eexists. split; [reflexivity|].
    apply (proj1 (proj2 (proj2 (load_module_exits_iff Cases.empty_version)) _ eq_refl)).
    reflexivity.
Defined.

(** ** The stages at their edges *)

Section StageEdges.

Context {W : Type} `{Collaborators W}.

(** X2: [generate_question], [evaluate_answer] and [generate_final_decision]
    write to the session only in their last step: when one of them raises,
    be it while building its arguments, in its chain or on reading the
    answer, the session is exactly as it was. *)
Theorem failed_stage_writes_nothing (m : machine W) :
  (forall topic e, (generate_question topic m).1 = Raise e ->
     session (generate_question topic m).2 = session m)
  /\ (forall question answer e, (evaluate_answer question answer m).1 = Raise e ->
     session (evaluate_answer question answer m).2 = session m)
  /\ (forall e, (generate_final_decision m).1 = Raise e ->
     session (generate_final_decision m).2 = session m).
Proof.
  split; [|split].
  - intros topic e. rewrite generate_question_run.
    destruct (q_args (session m) topic) as [args|e1]; [|done].
    by destruct (q_agent args (world m)) as [[response|e1] w'].
  - intros question answer e. rewrite evaluate_answer_run.
    destruct (eval_args (session m) question answer) as [args|e1]; [|done].
    destruct (eval_agent args (world m)) as [[result|e1] w']; [|done]. simpl.
    destruct (subscript result "score"); [|done].
    by destruct (subscript result "reasoning").
  - intros e. rewrite generate_final_decision_run.
    destruct (rec_args (session m)) as [args|e1]; [|done].
    by destruct (rec_agent args (world m)) as [[decision|e1] w'].
Qed.

(** X3: [analyze_jd] stores what its chain answered before it reads the role
    title.  When the answer has none, the stage raises ([KeyError] on
    [role_title] for an object without it, [TypeError] for a value that is
    not an object) and the answer stays in the session; after a value that
    is not an object, [generate_question] raises [AttributeError] without
    calling its chain. *)
Theorem analyze_jd_stores_before_raising (m : machine W) v w1 e :
  jd_agent (job_description (session m)) (world m) = (Ok v, w1) ->
  subscript v "role_title" = Raise e ->
  let m1 := {| world := w1;
               session := store_requirements v (session m);
               trace := trace m ++ [(session m, JdCall (job_description (session m)) (Ok v))] |} in
  analyze_jd m = (Raise e, m1)
  /\ ((exists d, v = JDict d) -> e = KeyError "role_title")
  /\ ((forall d, v <> JDict d) ->
      e = TypeError
      /\ forall topic, generate_question topic m1 = (Raise AttributeError, m1)).
Proof.
  intros Hjd Hrole m1. split; [|split].
  - rewrite analyze_jd_run, Hjd. simpl. by rewrite Hrole.
  - intros [d ->]. simpl in Hrole.
    destruct (lookup_key "role_title" d); [done|]. by injection Hrole as <-.
  - intros Hv.
    destruct v as [| | | | | |d]; [..|by destruct (Hv d eq_refl)];
      simpl in Hrole; injection Hrole as <-; (split; [done|]); intros topic;
      by rewrite generate_question_run.
Qed.

(** X4: no stage calls its chain twice.  Whatever its outcome, [analyze_jd]
    logs exactly one call, and each of the other stages logs no call when
    its arguments cannot be built and exactly one call otherwise, also when
    that call raises. *)
Theorem stages_call_once (m : machine W) :
  (exists r, trace (analyze_jd m).2
             = trace m ++ [(session m, JdCall (job_description (session m)) r)])
  /\ (forall topic,
        match q_args (session m) topic with
        | Raise _ => trace (generate_question topic m).2 = trace m
        | Ok args => exists r, trace (generate_question topic m).2
                               = trace m ++ [(session m, QCall args r)]
        end)
  /\ (forall question answer,
        match eval_args (session m) question answer with
        | Raise _ => trace (evaluate_answer question answer m).2 = trace m
        | Ok args => exists r, trace (evaluate_answer question answer m).2
                               = trace m ++ [(session m, EvalCall args r)]
        end)
  /\ match rec_args (session m) with
     | Raise _ => trace (generate_final_decision m).2 = trace m
     | Ok args => exists r, trace (generate_final_decision m).2
                            = trace m ++ [(session m, RecCall args r)]
     end.
Proof.
  split; [|split; [|split]].
  - rewrite analyze_jd_run.
    destruct (jd_agent _ (world m)) as [[v|e] w1]; by eexists.
  - intros topic. rewrite generate_question_run.
    destruct (q_args (session m) topic) as [args|e]; [|done].
    destruct (q_agent args (world m)) as [[response|e] w']; by eexists.
  - intros question answer. rewrite evaluate_answer_run.
    destruct (eval_args (session m) question answer) as [args|e]; [|done].
    destruct (eval_agent args (world m)) as [[result|e] w']; simpl; [|by eexists].
    destruct (subscript result "score"); [|by eexists].
    destruct (subscript result "reasoning"); by eexists.
  - rewrite generate_final_decision_run.
    destruct (rec_args (session m)) as [args|e]; [|done].
    destruct (rec_agent args (world m)) as [[decision|e] w']; by eexists.
Qed.

(** X5: no stage checks that the requirements were extracted.  On a session
    whose requirements are still the empty default, the question chain is
    called with no role, no seniority and an empty skills text, the
    evaluation chain with no skills, and the last chain with no role. *)
Theorem stages_run_without_requirements (m : machine W) topic question answer :
  analyzed_requirements (session m) = JDict [] ->
  q_args (session m) topic
    = Ok {| q_role := JNull; q_tech_skills := ""; q_seniority := JNull;
            q_previous_questions := String.concat LF (generated_questions (session m));
            q_focus_area := topic |}
  /\ eval_args (session m) question answer
     = Ok {| ev_question := question; ev_answer := answer; ev_skills := JNull |}
  /\ (forall summary, eval_summary_loop "" (evaluations (session m)) = Ok summary ->
        rec_args (session m)
        = Ok {| rec_name := candidate_name (session m); rec_role := JNull;
                rec_evaluations := summary |})
  /\ exists args r, trace (generate_question topic m).2 = trace m ++ [(session m, QCall args r)].
Proof.
  intros Hreq.
  assert (q_args (session m) topic
    = Ok {| q_role := JNull; q_tech_skills := ""; q_seniority := JNull;
            q_previous_questions := String.concat LF (generated_questions (session m));
            q_focus_area := topic |}) as Hq.
  { unfold q_args. by rewrite Hreq. }
  split; [done|]. split; [unfold eval_args; by rewrite Hreq|]. split.
  - intros summary Hsum. unfold rec_args. by rewrite Hsum, Hreq.
  - rewrite generate_question_run, Hq.
    destruct (q_agent _ (world m)) as [[response|e] w']; by do 2 eexists.
Qed.

(** X6: what [evaluate_answer] does with an answer of its chain that it
    cannot read: a value that is not an object raises [TypeError], an object
    without a score raises [KeyError] on [score] (whether or not it has a
    reasoning), an object with a score and no reasoning raises [KeyError] on
    [reasoning].  In each case the call is logged and nothing is appended
    to the evaluations. *)
Theorem evaluate_answer_unreadable question answer (m : machine W) args result w' :
  eval_args (session m) question answer = Ok args ->
  eval_agent args (world m) = (Ok result, w') ->
  let m1 := {| world := w'; session := session m;
               trace := trace m ++ [(session m, EvalCall args (Ok result))] |} in
  ((forall d, result <> JDict d) ->
     evaluate_answer question answer m = (Raise TypeError, m1))
  /\ (forall d, result = JDict d -> lookup_key "score" d = None ->
     evaluate_answer question answer m = (Raise (KeyError "score"), m1))
  /\ (forall d score, result = JDict d -> lookup_key "score" d = Some score ->
     lookup_key "reasoning" d = None ->
     evaluate_answer question answer m = (Raise (KeyError "reasoning"), m1)).
Proof.
  intros Hargs Hcall m1. rewrite evaluate_answer_run, Hargs, Hcall.
  split; [|split].
  - intros Hv. by destruct result as [| | | | | |d]; [..|destruct (Hv d eq_refl)].
  - intros d -> Hs. simpl. by rewrite Hs.
  - intros d score -> Hs Hr. simpl. by rewrite Hs, Hr.
Qed.

End StageEdges.

(** ** The summary *)

Section Summary.

Context {W : Type} `{Collaborators W}.

Lemma eval_summary_loop_from entries : forall acc,
  eval_summary_loop acc entries
  = let? text := eval_summary_loop "" entries in Ok (acc +:+ text).
Proof.
  induction entries as [|entry rest IH]; intros acc; simpl.
  - by rewrite append_empty_r.
  - destruct (entry_block entry) as [block|e]; simpl; [|done].
    rewrite (IH (acc +:+ block)), (IH ("" +:+ block)).
    destruct (eval_summary_loop "" rest) as [text|e]; simpl; [|done].
    by rewrite append_assoc.
Qed.

Lemma eval_summary_loop_app (first second : list json) :
  eval_summary_loop "" (first ++ second)
  = (let? s1 := eval_summary_loop "" first in
     let? s2 := eval_summary_loop "" second in
     Ok (s1 +:+ s2)).
Proof.
  induction first as [|entry rest IH]; simpl.
  - by destruct (eval_summary_loop "" second).
  - destruct (entry_block entry) as [block|e]; simpl; [|done].
    rewrite (eval_summary_loop_from (rest ++ second) ("" +:+ block)), IH.
    rewrite (eval_summary_loop_from rest ("" +:+ block)).
    destruct (eval_summary_loop "" rest) as [s1|e]; simpl; [|done].
    destruct (eval_summary_loop "" second) as [s2|e]; simpl; [|done].
    by rewrite !append_assoc.
Qed.

(** X7: the summary of a log made of two parts is the summary of the first
    followed by the summary of the second, and it fails where the first
    unreadable entry fails.  So every evaluation recorded extends the text
    that the last chain will be sent by the block of its own entry. *)
Theorem summary_of_appended_log (first second : list json) :
  eval_summary_loop "" (first ++ second)
  = (let? s1 := eval_summary_loop "" first in
     let? s2 := eval_summary_loop "" second in
     Ok (s1 +:+ s2))
  /\ forall text question answer score reasoning,
       eval_summary_loop "" first = Ok text ->
       eval_summary_loop "" (first ++ [evaluation_entry question answer score reasoning])
       = Ok (text +:+ "Q: " +:+ question +:+ LF
             +:+ "Score: " +:+ py_format score +:+ "/10" +:+ LF
             +:+ "Notes: " +:+ py_format reasoning +:+ LF +:+ LF).
Proof.
  split; [apply eval_summary_loop_app|].
  intros text question answer score reasoning Htext.
  rewrite eval_summary_loop_app, Htext. reflexivity.
Qed.

(** X8: [generate_final_decision] does not look at the recommendation
    already stored.  Called again on the session it has just written, it
    sends the same arguments and replaces the stored decision by the new
    answer of its chain; the evaluations are untouched. *)
Theorem decision_is_rewritten (m : machine W) d1 m1 :
  generate_final_decision m = (Ok d1, m1) ->
  rec_args (session m1) = rec_args (session m)
  /\ forall d2 m2, generate_final_decision m1 = (Ok d2, m2) ->
       final_recommendation (session m2) = Some d2
       /\ evaluations (session m2) = evaluations (session m).
Proof.
  rewrite generate_final_decision_run.
  destruct (rec_args (session m)) as [args|e] eqn:Hargs; [|done].
  destruct (rec_agent args (world m)) as [[decision|e] w']; [|done].
  intros [= <- <-]. simpl. split; [done|].
  intros d2 m2. rewrite generate_final_decision_run. simpl.
  change (rec_args (store_recommendation decision (session m)))
    with (rec_args (session m)). rewrite Hargs.
  destruct (rec_agent args w') as [[decision2|e] w'']; [|done].
  by intros [= <- <-].
Qed.

End Summary.

(** ** What the chains are told *)

Section Prompts.

Context {W : Type} `{Collaborators W}.

Lemma q_args_inv state topic args :
  q_args state topic = Ok args ->
  q_focus_area args = topic
  /\ q_previous_questions args = String.concat LF (generated_questions state)
  /\ (forall techs, dict_get (analyzed_requirements state) "technical_skills" (JList [])
                    = Ok techs ->
        str_join ", " techs = Ok (q_tech_skills args)).
Proof.
  unfold q_args.
  destruct (dict_get _ "role_title" JNull) as [role|e]; simpl; [|done].
  destruct (dict_get _ "technical_skills" (JList [])) as [techs|e]; simpl; [|done].
  destruct (str_join ", " techs) as [text|e] eqn:Ej; simpl; [|done].
  destruct (dict_get _ "seniority_level" JNull) as [seniority|e]; simpl; [|done].
  intros [= <-]. simpl. split; [done|]. split; [done|]. by intros techs' [= <-].
Qed.

Lemma eval_args_inv state question answer args :
  eval_args state question answer = Ok args ->
  ev_question args = question /\ ev_answer args = answer
  /\ dict_get (analyzed_requirements state) "technical_skills" JNull = Ok (ev_skills args).
Proof.
  unfold eval_args.
  destruct (dict_get _ "technical_skills" JNull) as [skills|e]; simpl; [|done].
  by intros [= <-].
Qed.

Lemma logs_built_ret {A} (a : A) : logs_built (W := W) (ret a).
Proof. by intros m. Qed.

Lemma logs_built_lift {A} (o : outcome A) : logs_built (W := W) (lift o).
Proof. by intros m. Qed.

Lemma logs_built_bind {A B} (c : M W A) (k : A -> M W B) :
  logs_built c -> (forall a, logs_built (k a)) -> logs_built (bind c k).
Proof.
  intros Hc Hk m Hm. unfold bind. specialize (Hc m Hm).
  destruct (c m) as [[a|e] m1]; [by apply Hk|done].
Qed.

Lemma logs_built_for_each items body :
  (forall x, logs_built (body x)) -> logs_built (for_each items body).
Proof.
  intros Hbody. induction items as [|x rest IH]; simpl.
  - apply logs_built_ret.
  - apply logs_built_bind; [apply Hbody|]. intros _. apply IH.
Qed.

Lemma analyze_jd_logs_built : logs_built analyze_jd.
Proof.
  intros m Hm. rewrite analyze_jd_run.
  destruct (jd_agent _ (world m)) as [[v|e] w1]; simpl;
    (apply Forall_app; split; [done|]); by apply Forall_singleton.
Qed.

Lemma generate_question_logs_built topic : logs_built (generate_question topic).
Proof.
  intros m Hm. rewrite generate_question_run.
  destruct (q_args (session m) topic) as [args|e] eqn:Hargs; [|done].
  assert (built_from_session (session m, QCall args (q_agent args (world m)).1)) as Hb.
  { unfold built_from_session. simpl.
    by destruct (q_args_inv _ _ _ Hargs) as (-> & _). }
  destruct (q_agent args (world m)) as [[response|e] w']; simpl;
    (apply Forall_app; split; [done|]); by apply Forall_singleton.
Qed.

Lemma evaluate_answer_logs_built question answer :
  logs_built (evaluate_answer question answer).
Proof.
  intros m Hm. rewrite evaluate_answer_run.
  destruct (eval_args (session m) question answer) as [args|e] eqn:Hargs; [|done].
  assert (built_from_session (session m, EvalCall args (eval_agent args (world m)).1)) as Hb.
  { unfold built_from_session. simpl.
    by destruct (eval_args_inv _ _ _ _ Hargs) as (-> & -> & _). }
  destruct (eval_agent args (world m)) as [[result|e] w']; simpl.
  2:{ apply Forall_app; split; [done|]. by apply Forall_singleton. }
  destruct (subscript result "score"); [destruct (subscript result "reasoning")|];
    simpl; (apply Forall_app; split; [done|]); by apply Forall_singleton.
Qed.

Lemma generate_final_decision_logs_built : logs_built generate_final_decision.
Proof.
  intros m Hm. rewrite generate_final_decision_run.
  destruct (rec_args (session m)) as [args|e] eqn:Hargs; [|done].
  destruct (rec_agent args (world m)) as [[decision|e] w']; simpl;
    (apply Forall_app; split; [done|]); by apply Forall_singleton.
Qed.

Lemma interview_logs_built : logs_built interview.
Proof.
  unfold interview.
  apply logs_built_bind; [apply analyze_jd_logs_built|]. intros _.
  apply logs_built_bind; [by intros m|]. intros state.
  apply logs_built_bind; [apply logs_built_lift|]. intros skills.
  apply logs_built_bind.
  { apply logs_built_for_each. intros skill. unfold interview_cycle.
    apply logs_built_bind; [apply generate_question_logs_built|]. intros question.
    apply logs_built_bind.
    { intros m Hm. unfold invoke.
      destruct (input "Your Answer: " (world m)) as [r w']. simpl.
      apply Forall_app. split; [done|]. by apply Forall_singleton. }
    intros answer.
    apply logs_built_bind; [apply evaluate_answer_logs_built|]. intros evaluation.
    apply logs_built_bind; [apply logs_built_lift|]. intros _. apply logs_built_ret. }
  intros _.
  apply logs_built_bind; [apply generate_final_decision_logs_built|]. intros _.
  apply logs_built_ret.
Qed.

(** The sessions logged after the extraction hold what it answered. *)
Lemma run_sessions_hold_extraction jd_text name (w : W) v w1 :
  jd_agent jd_text w = (Ok v, w1) ->
  exists t,
    trace (run_interview jd_text name w).2
      = (new_InterviewState name jd_text, JdCall jd_text (Ok v)) :: t
    /\ Forall (fun se => analyzed_requirements se.1 = v) t.
Proof.
  intros Hjd. unfold run_interview. rewrite interview_run, analyze_jd_run.
  change (session (boot jd_text name w)) with (new_InterviewState name jd_text).
  change (job_description (new_InterviewState name jd_text)) with jd_text.
  change (world (boot jd_text name w)) with w.
  change (trace (boot jd_text name w)) with (@nil (InterviewState * event)).
  rewrite Hjd. cbv beta iota zeta.
  set (s1 := store_requirements v (new_InterviewState name jd_text)).
  set (ev := (new_InterviewState name jd_text, JdCall jd_text (Ok v))).
  set (m1 := {| world := w1; session := s1; trace := [] ++ [ev] |}).
  assert (forall m' : machine W,
            advances keeps_requirements (fun _ => True) m1 m' ->
            exists t, trace m' = ev :: t
                      /\ Forall (fun se => analyzed_requirements se.1 = v) t) as Hfin.
  { intros m' (t & Ht & _ & Hall). exists t. split; [done|].
    eapply Forall_impl; [exact Hall|]. by intros se (Hs & _). }
  assert (advances keeps_requirements (fun _ => True) m1 m1) as Hrefl
    by apply advances_refl, _.
  destruct (subscript v "role_title"); cbv beta iota zeta; [|by apply (Hfin m1)].
  change (session m1) with s1.
  destruct (topics_of s1) as [topics|e]; [|by apply (Hfin m1)].
  apply Hfin.
  apply loop_and_decision_advance; [apply _|..]; intros; exact eq_refl || exact I.
Qed.

(** X9: in every run, each logged call was made with the arguments its
    stage builds from the session as it stood then.  In particular the
    question chain is told, as the questions to avoid, exactly the questions
    generated so far in the session, joined by line feeds, and these are a
    prefix of the questions of the final session. *)
Theorem chains_are_told_the_session jd_text name (w : W) :
  let m' := (run_interview jd_text name w).2 in
  Forall built_from_session (trace m')
  /\ forall s args r, (s, QCall args r) ∈ trace m' ->
       q_previous_questions args = String.concat LF (generated_questions s)
       /\ generated_questions s `prefix_of` generated_questions (session m').
Proof.
  intros m'.
  assert (Forall built_from_session (trace m')) as Hbuilt.
  { apply (interview_logs_built (boot jd_text name w)). constructor. }
  split; [done|]. intros s args r Hin.
  rewrite Forall_forall in Hbuilt. specialize (Hbuilt _ Hin).
  unfold built_from_session in Hbuilt. simpl in Hbuilt.
  destruct (q_args_inv _ _ _ Hbuilt) as (_ & Hprev & _). split; [done|].
  destruct (interview_steady extends (fun _ => True)
              extends_store_requirements extends_append_question
              extends_append_evaluation extends_store_recommendation
              (fun _ => I) (boot jd_text name w))
    as (t & Ht & _ & Hall).
  fold (run_interview jd_text name w) in Ht, Hall. fold m' in Ht, Hall.
  rewrite Ht in Hin. simpl in Hin. rewrite Forall_forall in Hall.
  by destruct (Hall _ Hin) as (_ & (_ & _ & Hq & _) & _).
Qed.

Lemma all_str_texts (texts : list string) : all_str (JStr <$> texts) = Ok texts.
Proof.
  induction texts as [|x rest IH]; [done|].
  rewrite fmap_cons. cbn [all_str]. by rewrite IH.
Qed.

(** X10: the cap of two applies to the topics only.  When the extraction
    gives a list of skill texts, of any length, every call of the question
    chain in the run is given all of them, joined by a comma and a space,
    and every call of the evaluation chain is given the whole list. *)
Theorem every_skill_is_in_the_prompts jd_text name (w : W) v w1 texts :
  jd_agent jd_text w = (Ok v, w1) ->
  subscript v "technical_skills" = Ok (JList (JStr <$> texts)) ->
  forall s e, (s, e) ∈ trace (run_interview jd_text name w).2 ->
    match e with
    | QCall args _ => q_tech_skills args = String.concat ", " texts
    | EvalCall args _ => ev_skills args = JList (JStr <$> texts)
    | _ => True
    end.
Proof.
  intros Hjd Hskills s e Hin.
  assert (forall dflt, dict_get v "technical_skills" dflt = Ok (JList (JStr <$> texts)))
    as Hget.
  { intros dflt. destruct v as [| | | | | |d]; try done. simpl in *.
    destruct (lookup_key "technical_skills" d); [|done]. by injection Hskills as ->. }
  assert (built_from_session (s, e)) as Hbuilt.
  { assert (Forall built_from_session (trace (run_interview jd_text name w).2)) as Hall.
    { apply (interview_logs_built (boot jd_text name w)). constructor. }
    rewrite Forall_forall in Hall. by apply Hall. }
  destruct (run_sessions_hold_extraction jd_text name w v w1 Hjd) as (t & Ht & Hall).
  rewrite Ht in Hin. apply elem_of_cons in Hin as [[= -> ->]|Hin]; [done|].
  rewrite Forall_forall in Hall. specialize (Hall _ Hin). simpl in Hall.
  unfold built_from_session in Hbuilt. simpl in Hbuilt.
  destruct e as [| args r | | args r |]; try done.
  - destruct (q_args_inv _ _ _ Hbuilt) as (_ & _ & Htechs).
    specialize (Htechs _ (eq_trans (f_equal (fun a => dict_get a _ _) Hall) (Hget _))).
    unfold str_join in Htechs. simpl in Htechs. rewrite all_str_texts in Htechs.
    by injection Htechs as <-.
  - destruct (eval_args_inv _ _ _ _ Hbuilt) as (_ & _ & Hsk).
    rewrite Hall, Hget in Hsk. by injection Hsk as <-.
Qed.

End Prompts.

(** ** Turns that stop *)

Section StoppedTurns.

Context {W : Type} `{Collaborators W}.

Lemma interview_cycle_stops skill (m m' : machine W) e :
  interview_cycle skill m = (Raise e, m') -> stopped_turn skill m m'.
Proof.
  unfold interview_cycle, bind. rewrite generate_question_run.
  destruct (q_args (session m) skill) as [qargs|e1] eqn:Eq.
  2:{ intros [= <- <-]. by apply stopped_before_question. }
  destruct (q_args_inv _ _ _ Eq) as (Hfocus & _).
  destruct (q_agent qargs (world m)) as [[question|e1] w1]; simpl.
  2:{ intros [= <- <-]. by eapply stopped_at_question. }
  unfold invoke at 1. simpl.
  destruct (input "Your Answer: " w1) as [[answer|e1] w2].
  2:{ intros [= <- <-]. eapply (stopped_after_question _ _ _ qargs question [_]);
        [done|done|simpl; by rewrite <- app_assoc|].
      apply Forall_singleton. by left. }
  rewrite evaluate_answer_run. simpl.
  destruct (eval_args _ question answer) as [eargs|e1].
  2:{ intros [= <- <-]. eapply (stopped_after_question _ _ _ qargs question [_]);
        [done|done|simpl; by rewrite <- app_assoc|].
      apply Forall_singleton. by left. }
  assert (forall r s' w',
            stopped_turn skill m
              {| world := w'; session := append_question question (session m);
                 trace := ((trace m ++ [(session m, QCall qargs (Ok question))])
                           ++ [(s', InputCall "Your Answer: " (Ok answer))])
                          ++ [(s', EvalCall eargs r)] |}) as Hlate.
  { intros r s' w'. eapply (stopped_after_question _ _ _ qargs question [_; _]);
      [done|done|simpl; by rewrite <- !app_assoc|].
    apply Forall_cons. split; [by left|]. apply Forall_singleton. by right. }
  destruct (eval_agent eargs w2) as [[result|e1] w3]; simpl.
  2:{ intros [= <- <-]. apply Hlate. }
  destruct (subscript result "score") as [score|e1] eqn:Es.
  2:{ intros [= <- <-]. apply Hlate. }
  destruct (subscript result "reasoning") as [reasoning|e1].
  2:{ intros [= <- <-]. apply Hlate. }
  unfold lift, ret. by rewrite Es.
Qed.

Lemma topics_asked_turns_events cs : forall s,
  topics_asked (turns_events s cs) = (q_focus_area ∘ t_qargs) <$> cs.
Proof.
  induction cs as [|c rest IH]; intros s; [done|].
  simpl. unfold topics_asked in *. simpl. by rewrite IH.
Qed.

Lemma answers_turns_events cs : forall s,
  answers (turns_events s cs) = t_answer <$> cs.
Proof.
  induction cs as [|c rest IH]; intros s; [done|].
  simpl. unfold answers in *. simpl. by rewrite IH.
Qed.

Lemma graded_turns_events cs : forall s,
  graded (turns_events s cs) = t_result <$> cs.
Proof.
  induction cs as [|c rest IH]; intros s; [done|].
  simpl. unfold graded in *. simpl. by rewrite IH.
Qed.

Lemma topics_asked_stopped skill (m m' : machine W) :
  stopped_turn skill m m' ->
  topics_asked (trace m') = topics_asked (trace m)
  \/ topics_asked (trace m') = topics_asked (trace m) ++ [skill].
Proof.
  unfold topics_asked.
  intros [Hs Ht | args e Hf Hs Ht | args q t Hf Hs Ht Hall]; rewrite Ht.
  - by left.
  - right. rewrite omap_app. simpl. by rewrite Hf.
  - right. rewrite omap_app. simpl. rewrite Hf. do 2 f_equal. clear Ht.
    induction Hall as [|[s' ev] t' Hev _ IH]; [done|].
    destruct ev; destruct Hev as [Hk|Hk]; try discriminate Hk; exact IH.
Qed.

(** X11: the question chain is asked about the first two extracted skills,
    in their order, and about nothing else: the topics of the question calls
    of a run are always a prefix of the first two skills, and in a run that
    returns they are exactly these. *)
Theorem topics_are_the_first_skills jd_text name (w : W) v w1 skills :
  jd_agent jd_text w = (Ok v, w1) ->
  dict_get v "technical_skills" (JList []) = Ok (JList skills) ->
  let run := run_interview jd_text name w in
  topics_asked (trace run.2) `prefix_of` take 2 skills
  /\ (run.1 = Ok tt -> topics_asked (trace run.2) = take 2 skills).
Proof.
  intros Hjd Hskills run. subst run. unfold run_interview.
  rewrite interview_run, analyze_jd_run. simpl. rewrite Hjd. simpl.
  destruct (subscript v "role_title"); simpl; [|split; [apply prefix_nil|done]].
  unfold topics_of. simpl. rewrite Hskills. simpl.
  set (m1 := {| world := w1; session := _; trace := _ |}).
  assert (post (for_each (take 2 skills) interview_cycle) m1
            (fun r m' => topics_asked (trace m') `prefix_of` take 2 skills
                         /\ (r = Ok tt -> topics_asked (trace m') = take 2 skills)))
    as Hloop.
  { apply (post_for_each
             (fun n m => topics_asked (trace m) = take n (take 2 skills))).
    - by rewrite take_0.
    - intros n x m2 Hx Hn. unfold post.
      destruct (interview_cycle x m2) as [[[]|e] m3] eqn:E; simpl.
      + destruct (interview_cycle_ok _ _ _ E) as (c & _ & Ht & Hc & _).
        rewrite Ht. unfold topics_asked in *. rewrite omap_app, Hn. simpl.
        rewrite Hc. by rewrite (take_S_r _ _ _ Hx).
      + split; [|done].
        destruct (topics_asked_stopped _ _ _ (interview_cycle_stops _ _ _ _ E))
          as [-> | ->]; rewrite Hn.
        * apply prefix_take.
        * rewrite <- (take_S_r _ _ _ Hx). apply prefix_take.
    - intros m' Hm'. rewrite firstn_all in Hm'. by rewrite Hm'. }
  unfold post in Hloop.
  destruct (for_each (take 2 skills) interview_cycle m1) as [[[]|e] m2];
    simpl in Hloop |- *; [|done].
  destruct Hloop as [_ Hall]. specialize (Hall eq_refl).
  rewrite generate_final_decision_run.
  destruct (rec_args (session m2)) as [args|e]; simpl; [|by rewrite Hall].
  destruct (rec_agent args (world m2)) as [[decision|e] w3]; simpl;
    unfold topics_asked in *; rewrite omap_app, Hall; simpl;
    by rewrite app_nil_r.
Qed.

(** X12: in a run that returns, the evaluation log is the transcript of the
    turns: the answer of entry [i] is the text read from the console in turn
    [i], as it was read, and its score and reasoning are those of the object
    the evaluation chain answered in turn [i]. *)
Theorem log_is_the_transcript jd_text name (w : W) m' :
  run_interview jd_text name w = (Ok tt, m') ->
  Forall2 (fun a entry => subscript entry "answer" = Ok (JStr a))
          (answers (trace m')) (evaluations (session m'))
  /\ Forall2 (fun result entry =>
                subscript entry "score" = subscript result "score"
                /\ subscript entry "reasoning" = subscript result "reasoning")
             (graded (trace m')) (evaluations (session m')).
Proof.
  intros Hrun.
  destruct (run_interview_ok _ _ _ _ Hrun)
    as (v & w1 & techs & topics & cs & args & decision
        & _ & _ & _ & _ & _ & Hs & Ht & Hans & _).
  rewrite Hs, Ht, after_turns. simpl.
  unfold answers, graded. simpl. rewrite !omap_app. simpl. rewrite !app_nil_r.
  fold (answers (turns_events (store_requirements v (new_InterviewState name jd_text)) cs)).
  fold (graded (turns_events (store_requirements v (new_InterviewState name jd_text)) cs)).
  rewrite answers_turns_events, graded_turns_events.
  split; apply Forall2_fmap, Forall_Forall2_diag.
  - apply Forall_forall. by intros c _.
  - eapply Forall_impl; [exact Hans|].
    intros c (_ & _ & _ & _ & _ & Hsc & Hr). simpl. by rewrite Hsc, Hr.
Qed.

Lemma evaluated_turns cs :
  evaluated (t_question <$> cs) (turn_entry <$> cs).
Proof.
  apply Forall2_fmap, Forall_Forall2_diag, Forall_forall. by intros c _.
Qed.

(** X13: whatever the outcome of a run, its evaluations are one per stored
    question, in order and with that question, except that the last stored
    question has no evaluation when its turn raised after the question was
    generated.  So the questions are never fewer than the evaluations and
    never more than one ahead, and they are as many in a run that returns. *)
Theorem questions_lead_evaluations jd_text name (w : W) :
  let run := run_interview jd_text name w in
  exists questions unanswered,
    generated_questions (session run.2) = questions ++ unanswered
    /\ length unanswered <= 1
    /\ evaluated questions (evaluations (session run.2))
    /\ (run.1 = Ok tt -> unanswered = []).
Proof.
  intros run. subst run. unfold run_interview.
  assert (forall r : outcome unit,
            exists questions unanswered : list string,
              [] = questions ++ unanswered
              /\ length unanswered <= 1
              /\ evaluated questions []
              /\ (r = Ok tt -> unanswered = [])) as Hempty.
  { intros r. exists [], []. split; [done|]. split; [simpl; lia|].
    split; [constructor|done]. }
  rewrite interview_run, analyze_jd_run. simpl.
  destruct (jd_agent jd_text w) as [[v|e] w1]; simpl; [|by apply Hempty].
  destruct (subscript v "role_title"); simpl; [|by apply Hempty].
  destruct (topics_of _) as [topics|e]; [|by apply Hempty].
  set (m1 := {| world := w1; session := _; trace := _ |}).
  assert (post (for_each topics interview_cycle) m1
            (fun r m' =>
               exists questions unanswered,
                 generated_questions (session m') = questions ++ unanswered
                 /\ length unanswered <= 1
                 /\ evaluated questions (evaluations (session m'))
                 /\ (r = Ok tt -> unanswered = []))) as Hloop.
  { apply (post_for_each
             (fun _ m => evaluated (generated_questions (session m))
                                   (evaluations (session m)))).
    - constructor.
    - intros n x m2 _ Hn. unfold post.
      destruct (interview_cycle x m2) as [[[]|e] m3] eqn:E; simpl.
      + destruct (interview_cycle_ok _ _ _ E) as (c & Hs & _).
        rewrite Hs. simpl. apply Forall2_app; [done|].
        apply (evaluated_turns [c]).
      + destruct (interview_cycle_stops _ _ _ _ E)
          as [Hs Ht | args e' Hf Hs Ht | args q t Hf Hs Ht Hall]; rewrite Hs.
        * exists (generated_questions (session m2)), [].
          rewrite app_nil_r. split; [done|]. split; [simpl; lia|]. by split.
        * exists (generated_questions (session m2)), [].
          rewrite app_nil_r. split; [done|]. split; [simpl; lia|]. by split.
        * exists (generated_questions (session m2)), [q].
          split; [done|]. split; [simpl; lia|]. by split.
    - intros m' Hm'. exists (generated_questions (session m')), [].
      rewrite app_nil_r. split; [done|]. split; [simpl; lia|]. by split. }
  unfold post in Hloop.
  destruct (for_each topics interview_cycle m1) as [[[]|e] m2];
    simpl in Hloop |- *; [|done].
  destruct Hloop as (questions & unanswered & Hq & Hlen & Hev & Hok).
  rewrite generate_final_decision_run.
  destruct (rec_args (session m2)) as [args|e]; simpl.
  2:{ exists questions, unanswered. split; [done|]. split; [done|]. by split. }
  destruct (rec_agent args (world m2)) as [[decision|e] w3]; simpl;
    exists questions, unanswered; (split; [done|]); (split; [done|]);
    (split; [done|]); [|done].
  intros _. by apply Hok.
Qed.

End StoppedTurns.

(** ** Skills that are not a list of texts *)

Section OddSkills.

Context {W : Type} `{Collaborators W}.

Lemma chars_head a rest c cs :
  chars (String a rest) = c :: cs -> exists tail, c = String a tail.
Proof.
  simpl. destruct (chars rest) as [|c' cs']; [intros [= <- _]; by eexists|].
  destruct (starts_inside rest); intros [= <- _]; by eexists.
Qed.

Lemma chars_starts s c cs : chars s = c :: cs -> starts_inside c = starts_inside s.
Proof.
  destruct s as [|a rest]; [done|]. intros Hc.
  by destruct (chars_head _ _ _ _ Hc) as [tail ->].
Qed.

Lemma starts_inside_app c x : c <> "" -> starts_inside (c +:+ x) = starts_inside c.
Proof. by destruct c. Qed.

(** The characters of a text, put together again, are the text. *)
Lemma chars_concat (s : string) : String.concat "" (chars s) = s.
Proof.
  induction s as [|a rest IH]; [done|]. cbn [chars].
  destruct (chars rest) as [|c cs] eqn:Hc.
  - rewrite <- IH. reflexivity.
  - destruct (starts_inside rest).
    + rewrite concat_empty_cons, <- IH, concat_empty_cons. reflexivity.
    + rewrite (concat_empty_cons (String a "")), IH. reflexivity.
Qed.

Lemma starts_inside_take (s : string) (k : nat) :
  starts_inside (String.concat "" (take (S k) (chars s))) = starts_inside s.
Proof.
  destruct (chars s) as [|c cs] eqn:Hc.
  - rewrite <- (chars_concat s), Hc. done.
  - cbn [take]. rewrite concat_empty_cons, <- (chars_starts _ _ _ Hc).
    apply starts_inside_app.
    destruct s as [|b rest]; [done|].
    by destruct (chars_head _ _ _ _ Hc) as [tail ->].
Qed.

(** A slice of a text is made of whole characters: iterating over the first
    [n] characters gives those characters. *)
Lemma chars_take (s : string) : forall n,
  chars (String.concat "" (take n (chars s))) = take n (chars s).
Proof.
  induction s as [|a rest IH]; intros n; [by destruct n|].
  destruct n as [|n]; [done|].
  pose proof (IH n) as IH0. pose proof (IH (S n)) as IH1.
  pose proof (starts_inside_take rest n) as Hs1.
  cbn [chars]. destruct (chars rest) as [|c cs] eqn:Hc.
  { cbn [take]. rewrite take_nil. reflexivity. }
  cbn [take] in IH1, Hs1. rewrite concat_empty_cons in IH1, Hs1.
  destruct (starts_inside rest) eqn:Hin; cbn [take]; rewrite concat_empty_cons.
  - change (String a c +:+ String.concat "" (take n cs))
      with (String a (c +:+ String.concat "" (take n cs))).
    cbn [chars]. by rewrite IH1, Hs1.
  - change (String a "" +:+ String.concat "" (take n (c :: cs)))
      with (String a (String.concat "" (take n (c :: cs)))).
    cbn [chars]. rewrite IH0.
    destruct n as [|n]; [done|].
    pose proof (starts_inside_take rest n) as Hs0. rewrite Hc, Hin in Hs0.
    by rewrite Hs0.
Qed.

(** Every character is one byte with the continuation bytes after it, and
    every character after the first begins a code point. *)
Lemma chars_single (s : string) :
  Forall (fun c => single_char c = true) (chars s)
  /\ Forall (fun c => starts_inside c = false) (drop 1 (chars s)).
Proof.
  induction s as [|a rest [IH1 IH2]]; [by split|]. cbn [chars].
  destruct (chars rest) as [|c cs] eqn:Hc; [by split; repeat constructor|].
  pose proof (chars_starts _ _ _ Hc) as Hstart.
  destruct (starts_inside rest) eqn:Hin.
  - split; [|exact IH2].
    apply Forall_cons in IH1 as [Hhead Hrest]. constructor; [|done].
    destruct c as [|b tail]; [done|]. simpl in *. by rewrite Hstart.
  - split; [by constructor|]. simpl in *. by constructor.
Qed.

Lemma all_str_chars (s : string) : all_str (JStr <$> chars s) = Ok (chars s).
Proof. apply all_str_texts. Qed.

(** X14: when the requirements give the technical skills as one text and not
    as a list, nothing fails: the orchestrator takes the first two
    characters of the text as its topics, and the question chain is given
    the characters of the text separated by commas.  The characters are the
    code points of the text and not its bytes: put together again they are
    the text, each is one byte with the continuation bytes that follow it,
    and each after the first begins with a byte that is no continuation. *)
Theorem skills_text_is_split (state : InterviewState) (text : string) :
  dict_get (analyzed_requirements state) "technical_skills" (JList []) = Ok (JStr text) ->
  topics_of state = Ok (JStr <$> take 2 (chars text))
  /\ String.concat "" (chars text) = text
  /\ Forall (fun c => single_char c = true) (chars text)
  /\ Forall (fun c => starts_inside c = false) (drop 1 (chars text))
  /\ forall topic,
       exists args, q_args state topic = Ok args
                    /\ q_tech_skills args = String.concat ", " (chars text).
Proof.
  intros Hskills. split; [|split; [|split; [|split]]].
  - unfold topics_of. rewrite Hskills. simpl. by rewrite chars_take.
  - apply chars_concat.
  - apply chars_single.
  - apply chars_single.
  - intros topic. unfold q_args. rewrite Hskills.
    destruct (analyzed_requirements state) as [| | | | | |d]; try discriminate Hskills.
    simpl. unfold str_join. simpl. rewrite all_str_chars. simpl. by eexists.
Qed.

Lemma all_str_fails (l : list json) :
  forallb is_str l = false -> all_str l = Raise TypeError.
Proof.
  induction l as [|x rest IH]; [done|]. simpl.
  destruct x; try done. simpl. intros Hrest. by rewrite (IH Hrest).
Qed.

(** X15: one skill that is not a text, anywhere in a non-empty list of
    skills, also beyond the first two, stops the run at its first turn: the
    skills cannot be joined for the prompt, so [run_interview] raises
    [TypeError] with the extraction as its only call, no question asked and
    no recommendation made. *)
Theorem skill_that_is_not_text_stops_the_run jd_text name (w : W) d role skills w1 :
  jd_agent jd_text w = (Ok (JDict d), w1) ->
  lookup_key "role_title" d = Some role ->
  lookup_key "technical_skills" d = Some (JList skills) ->
  skills <> [] ->
  forallb is_str skills = false ->
  run_interview jd_text name w
  = (Raise TypeError,
     {| world := w1;
        session := store_requirements (JDict d) (new_InterviewState name jd_text);
        trace := [(new_InterviewState name jd_text, JdCall jd_text (Ok (JDict d)))] |}).
Proof.
  intros Hjd Hrole Hskills Hne Hbad.
  assert (forall s topic, analyzed_requirements s = JDict d ->
            q_args s topic = Raise TypeError) as Hq.
  { intros s topic Hs. unfold q_args. rewrite Hs. unfold dict_get.
    rewrite Hrole, Hskills. cbn [obind from_option id]. unfold str_join.
    cbn [py_iter obind]. by rewrite (all_str_fails _ Hbad). }
  unfold run_interview. rewrite interview_run, analyze_jd_run. simpl.
  rewrite Hjd. simpl. rewrite Hrole. simpl.
  unfold topics_of. simpl. rewrite Hskills. simpl.
  destruct skills as [|skill rest]; [done|]. simpl.
  unfold bind, interview_cycle, bind. rewrite generate_question_run.
  by rewrite Hq.
Qed.

End OddSkills.

(** ** The further properties on the scripted collaborators *)

(** An evaluation without a score leaves the session as it was. *)
Lemma failed_stage_writes_nothing_witness :
  session (evaluate_answer (H := Cases.ungraded) "Why Python?" "Because."
             Scripted.resumed).2
  = Scripted.asked_once.
Proof.
  exact (proj1 (proj2 (failed_stage_writes_nothing (H := Cases.ungraded) Scripted.resumed))
           "Why Python?" "Because." (KeyError "score") eq_refl).
Defined.

(** A list for an extraction: stored, [TypeError], then [AttributeError]. *)
Lemma analyze_jd_stores_before_raising_witness :
  let m1 := {| world := ["a1"];
               session := store_requirements (JList [JStr "Django"])
                            (new_InterviewState "Alex Developer" "Engineer wanted");
               trace := [(new_InterviewState "Alex Developer" "Engineer wanted",
                          JdCall "Engineer wanted" (Ok (JList [JStr "Django"])))] |} in
  analyze_jd (H := Cases.listing) (boot "Engineer wanted" "Alex Developer" ["a1"])
    = (Raise TypeError, m1)
  /\ generate_question (H := Cases.listing) (JStr "Django") m1 = (Raise AttributeError, m1).
Proof.
  intros m1.
  destruct (analyze_jd_stores_before_raising (H := Cases.listing)
              (boot "Engineer wanted" "Alex Developer" ["a1"])
              (JList [JStr "Django"]) ["a1"] TypeError eq_refl eq_refl)
    as (Hrun & _ & Hnext).
  split; [exact Hrun|].
  refine (proj2 (Hnext _) (JStr "Django")). intros d Hd. discriminate Hd.
Defined.

Lemma stages_run_without_requirements_witness :
  q_args (new_InterviewState "Alex Developer" "Engineer wanted") (JStr "Django")
  = Ok {| q_role := JNull; q_tech_skills := ""; q_seniority := JNull;
          q_previous_questions := ""; q_focus_area := JStr "Django" |}.
Proof.
  exact (proj1 (stages_run_without_requirements (H := Scripted.talkative)
                  (boot "Engineer wanted" "Alex Developer" 0)
                  (JStr "Django") "Why Python?" "Because." eq_refl)).
Defined.

Lemma evaluate_answer_unreadable_witness :
  (evaluate_answer (H := Cases.ungraded) "Why Python?" "Because." Scripted.resumed).1
  = Raise (KeyError "score").
Proof.
  exact (f_equal fst
           (proj1 (proj2 (evaluate_answer_unreadable (H := Cases.ungraded)
                            "Why Python?" "Because." Scripted.resumed _ Cases.no_score
                            ["Because."] eq_refl eq_refl))
              _ eq_refl eq_refl)).
Defined.

Lemma summary_of_appended_log_witness :
  eval_summary_loop (H := Scripted.repetitive) ""
    [evaluation_entry "Why Python?" "Because." (JInt 42) (JStr "off the scale")]
  = Ok ("Q: Why Python?" +:+ LF +:+ "Score: 42/10" +:+ LF
        +:+ "Notes: off the scale" +:+ LF +:+ LF).
Proof.
  exact (proj2 (summary_of_appended_log (H := Scripted.repetitive) [] [])
           "" "Why Python?" "Because." (JInt 42) (JStr "off the scale") eq_refl).
Defined.

(** "HIRE", then "NO HIRE": the second answer is the one that stays. *)
Lemma decision_is_rewritten_witness :
  let m := {| world := 0; session := Scripted.asked_once; trace := [] |} in
  final_recommendation
    (session (generate_final_decision (H := Cases.fickle)
                (generate_final_decision (H := Cases.fickle) m).2).2)
  = Some "NO HIRE".
Proof.
  intros m.
  exact (proj1 (proj2 (decision_is_rewritten (H := Cases.fickle) m "HIRE"
                         (generate_final_decision (H := Cases.fickle) m).2 eq_refl)
                  "NO HIRE"
                  (generate_final_decision (H := Cases.fickle)
                     (generate_final_decision (H := Cases.fickle) m).2).2
                  eq_refl)).
Defined.

(** The second question call is told the first question. *)
Lemma chains_are_told_the_session_witness :
  let run := run_interview (H := Scripted.after (Ok Scripted.senior_python))
               "Senior Python Developer" "Alex Developer" ["a1"; "a2"] in
  exists s args r,
    trace run.2 !! 4 = Some (s, QCall args r)
    /\ generated_questions s = ["Tell me about Django"]
    /\ q_previous_questions args = String.concat LF (generated_questions s)
    /\ generated_questions s `prefix_of` generated_questions (session run.2).
Proof.
  intros run.
  assert (exists s args r, trace run.2 !! 4 = Some (s, QCall args r)
                           /\ generated_questions s = ["Tell me about Django"])
    as (s & args & r & Hin & Hs).
  { vm_compute. by do 3 eexists. }
  exists s, args, r. split; [exact Hin|]. split; [exact Hs|].
  exact (proj2 (chains_are_told_the_session
                  (H := Scripted.after (Ok Scripted.senior_python))
                  "Senior Python Developer" "Alex Developer" ["a1"; "a2"])
           s args r (list_elem_of_lookup_2 _ 4 _ Hin)).
Defined.

(** Five skills: two topics, and all five in the prompt. *)
Lemma every_skill_is_in_the_prompts_witness :
  let run := run_interview (H := Scripted.after (Ok Scripted.python_five))
               "Python, five skills" "Alex Developer" ["a1"; "a2"] in
  exists s args r,
    trace run.2 !! 1 = Some (s, QCall args r)
    /\ q_tech_skills args = "Django, REST APIs, Azure, LangChain, AI Agents".
Proof.
  intros run.
  assert (exists s args r, trace run.2 !! 1 = Some (s, QCall args r))
    as (s & args & r & Hin).
  { vm_compute. by do 3 eexists. }
  exists s, args, r. split; [exact Hin|].
  exact (every_skill_is_in_the_prompts (H := Scripted.after (Ok Scripted.python_five))
           "Python, five skills" "Alex Developer" ["a1"; "a2"]
           Scripted.python_five ["a1"; "a2"]
           ["Django"; "REST APIs"; "Azure"; "LangChain"; "AI Agents"]
           eq_refl eq_refl s (QCall args r) (list_elem_of_lookup_2 _ 1 _ Hin)).
Defined.

Lemma topics_are_the_first_skills_witness :
  topics_asked
    (trace (run_interview (H := Scripted.after (Ok Scripted.python_five))
              "Python, five skills" "Alex Developer" ["a1"; "a2"]).2)
  = [JStr "Django"; JStr "REST APIs"].
Proof.
  exact (proj2 (topics_are_the_first_skills (H := Scripted.after (Ok Scripted.python_five))
                  "Python, five skills" "Alex Developer" ["a1"; "a2"]
                  Scripted.python_five ["a1"; "a2"] Scripted.five_skills
                  eq_refl eq_refl)
           eq_refl).
Defined.

Lemma log_is_the_transcript_witness :
  let run := run_interview (H := Scripted.after (Ok Scripted.senior_python))
               "Senior Python Developer" "Alex Developer" ["a1"; ""] in
  Forall2 (fun a entry => subscript entry "answer" = Ok (JStr a))
          (answers (trace run.2)) (evaluations (session run.2)).
Proof.
  intros run.
  exact (proj1 (log_is_the_transcript (H := Scripted.after (Ok Scripted.senior_python))
                  "Senior Python Developer" "Alex Developer" ["a1"; ""] run.2 eq_refl)).
Defined.

(** Four characters in seven bytes: the topics are the first two
    characters, and the prompt lists all four. *)
Lemma skills_text_is_split_witness :
  let state := store_requirements Cases.skills_as_text
                 (new_InterviewState "Alex Developer" "Engineer wanted") in
  topics_of state = Ok [JStr "G"; JStr "ö"]
  /\ exists args, q_args state (JStr "G") = Ok args
                  /\ q_tech_skills args = "G, ö, 語, C".
Proof.
  intros state.
  destruct (skills_text_is_split state "Gö語C" eq_refl)
    as (Htopics & _ & _ & _ & Hargs).
  split; [exact Htopics|exact (Hargs (JStr "G"))].
Defined.

(** A number as third skill: no question is asked. *)
Lemma skill_that_is_not_text_stops_the_run_witness :
  (run_interview (H := Scripted.after (Ok Cases.number_among_skills))
     "Engineer wanted" "Alex Developer" ["a1"; "a2"]).1
  = Raise TypeError.
Proof.
  exact (f_equal fst
           (skill_that_is_not_text_stops_the_run
              (H := Scripted.after (Ok Cases.number_among_skills))
              "Engineer wanted" "Alex Developer" ["a1"; "a2"]
              [("role_title", JStr "Engineer");
               ("technical_skills", JList [JStr "Django"; JStr "Azure"; JInt 3])]
              (JStr "Engineer") [JStr "Django"; JStr "Azure"; JInt 3] ["a1"; "a2"]
              eq_refl eq_refl eq_refl (fun Hnil => nil_cons (eq_sym Hnil)) eq_refl)).
Defined.
